(** * Conversation-history windowing and prompt assembly

    A shallow embedding of the Python sources

      - [backend/python_service/utils/tokenizer.py]
      - [backend/python_service/prompts/runtime_builder.py]
      - [scripts/demo/conversation_memory_demo.py]

    followed by the properties of the token estimator, the history
    normalizer, the history windower and the prompt assembler.

    Python [str] values are lists of Unicode code points.  The Unicode
    tables of the Python runtime (which code points are white space, which
    are word characters, how case conversion works) are not part of the
    repository: they are taken as a parameter [UnicodeDB] that is only
    required to agree with CPython on the ASCII range. *)

From Stdlib Require Import String Ascii.
From Stdlib Require Import List ZArith NArith Lia Bool.
Import ListNotations.

(** ** The Python runtime: strings, slices, exceptions *)

Module Py.

Definition char := N.
Definition text := list char.

(** A string literal of the source, as code points. *)
Definition lit (s : string) : text :=
  map N_of_ascii (list_ascii_of_string s).

(** CPython's classification of the ASCII range: [str.isspace] (also used
    by [str.strip] and by [\s] of [re]) and the word characters of [\w]. *)
Definition ascii_isspace (c : char) : bool :=
  ((9 <=? c) && (c <=? 13) || (28 <=? c) && (c <=? 32))%N.

Definition ascii_isword (c : char) : bool :=
  ((48 <=? c) && (c <=? 57) || (65 <=? c) && (c <=? 90)
   || (97 <=? c) && (c <=? 122) || (c =? 95))%N.

Definition ascii_tolower (c : char) : char :=
  if ((65 <=? c) && (c <=? 90))%N then (c + 32)%N else c.

Definition ascii_toupper (c : char) : char :=
  if ((97 <=? c) && (c <=? 122))%N then (c - 32)%N else c.

Definition ascii_capitalize (s : text) : text :=
  match s with
  | [] => []
  | c :: s' => ascii_toupper c :: map ascii_tolower s'
  end.

Definition is_ascii (s : text) : Prop := Forall (fun c => (c < 128)%N) s.

(** The Unicode database of the interpreter. *)
Class UnicodeDB := {
  isspace : char -> bool;
  isword : char -> bool;
  lower : text -> text;
  capitalize : text -> text;
  isspace_ascii : forall c, (c < 128)%N -> isspace c = ascii_isspace c;
  isword_ascii : forall c, (c < 128)%N -> isword c = ascii_isword c;
  lower_ascii : forall s, is_ascii s -> lower s = map ascii_tolower s;
  capitalize_ascii : forall s, is_ascii s -> capitalize s = ascii_capitalize s
}.

(** [str.strip()]: leading and trailing white space removed. *)
Fixpoint lstrip_with (sp : char -> bool) (s : text) : text :=
  match s with
  | [] => []
  | c :: s' => if sp c then lstrip_with sp s' else s
  end.

Definition rstrip_with (sp : char -> bool) (s : text) : text :=
  rev (lstrip_with sp (rev s)).

Definition strip_with (sp : char -> bool) (s : text) : text :=
  rstrip_with sp (lstrip_with sp s).

Definition strip {db : UnicodeDB} (s : text) : text := strip_with isspace s.

(** [sep in s] and [s.split(sep, 1)] for a one-character separator: the
    text before the first occurrence and the text after it. *)
Definition contains (sep : char) (s : text) : bool :=
  existsb (N.eqb sep) s.

Fixpoint split_once (sep : char) (s : text) : text * text :=
  match s with
  | [] => ([], [])
  | c :: s' =>
      if N.eqb c sep then ([], s')
      else let (before, after) := split_once sep s' in (c :: before, after)
  end.

Definition text_eqb (a b : text) : bool :=
  if list_eq_dec N.eq_dec a b then true else false.

(** [l[start:]] with Python's treatment of negative and out-of-range
    indices. *)
Definition slice_from {A : Type} (start : Z) (l : list A) : list A :=
  let len := Z.of_nat (length l) in
  let i := if (start <? 0)%Z then Z.max 0 (start + len) else Z.min start len in
  skipn (Z.to_nat i) l.

(** Truthiness of an [Optional[str]] and of an [Optional[int]]. *)
Definition truthy_str (o : option text) : bool :=
  match o with
  | Some (_ :: _) => true
  | _ => false
  end.

Definition truthy_int (o : option Z) : bool :=
  match o with
  | Some z => negb (z =? 0)%Z
  | None => false
  end.

(** Exceptions (all of them subclasses of [Exception]) and computations
    that may raise. *)
Inductive exn : Type :=
| ImportError
| KeyError (what : text)
| ValueError (what : text)
| FileNotFoundError (msg : text)
| IsADirectoryError (path : text)
| PermissionError (path : text)
| UnicodeDecodeError.

Inductive Exc (A : Type) : Type :=
| Ok (a : A)
| Raise (e : exn).
Arguments Ok {A} a.
Arguments Raise {A} e.

Definition bind {A B : Type} (m : Exc A) (k : A -> Exc B) : Exc B :=
  match m with
  | Ok a => k a
  | Raise e => Raise e
  end.

Definition raises {A : Type} (m : Exc A) : Prop := exists e, m = Raise e.

(** [re.findall] for the patterns the sources use: a character class, a
    greedy repetition of a class, an ordered alternative.  None of them
    matches the empty string. *)
Inductive regex : Type :=
| CharClass (p : char -> bool)
| Plus (p : char -> bool)
| Alt (r1 r2 : regex).

Fixpoint take_while (p : char -> bool) (s : text) : text :=
  match s with
  | [] => []
  | c :: s' => if p c then c :: take_while p s' else []
  end.

(** Length of the match of [r] at the start of [s], if there is one. *)
Fixpoint match_at (r : regex) (s : text) : option nat :=
  match r with
  | CharClass p =>
      match s with
      | c :: _ => if p c then Some 1 else None
      | [] => None
      end
  | Plus p =>
      match length (take_while p s) with
      | O => None
      | n => Some n
      end
  | Alt r1 r2 =>
      match match_at r1 s with
      | Some n => Some n
      | None => match_at r2 s
      end
  end.

(** The scan of [findall]: left to right, non-overlapping; after a match
    of length [S k] the next [k] positions lie inside it and are skipped. *)
Fixpoint findall_from (r : regex) (skip : nat) (s : text) : list text :=
  match s with
  | [] => []
  | _ :: s' =>
      match skip with
      | S k => findall_from r k s'
      | O =>
          match match_at r s with
          | Some (S k) => firstn (S k) s :: findall_from r k s'
          | _ => findall_from r 0 s'
          end
      end
  end.

Definition findall (r : regex) (s : text) : list text := findall_from r 0 s.

(** [sep.join(parts)]. *)
Fixpoint join (sep : text) (parts : list text) : text :=
  match parts with
  | [] => []
  | [x] => x
  | x :: rest => x ++ sep ++ join sep rest
  end.

End Py.

Import Py.

Notation "x <- m ;; k" := (bind m (fun x => k))
  (at level 61, m at next level, right associativity).

(** The ASCII restriction of the Unicode tables: code points from 128 on
    are neither white space nor word characters and have no case. *)
Definition ascii_db : UnicodeDB := {|
  isspace := ascii_isspace;
  isword := ascii_isword;
  lower := map ascii_tolower;
  capitalize := ascii_capitalize;
  isspace_ascii := fun _ _ => eq_refl;
  isword_ascii := fun _ _ => eq_refl;
  lower_ascii := fun _ _ => eq_refl;
  capitalize_ascii := fun _ _ => eq_refl
|}.

(** ** backend/python_service/utils/tokenizer.py *)

Module Tokenizer.

(** The [tiktoken] package, when it is installed. *)
Record Encoding := { encode : text -> Exc (list N) }.

Record Tiktoken := {
  encoding_for_model : text -> Exc Encoding;
  get_encoding : text -> Exc Encoding
}.

Section WithDB.
Context {db : UnicodeDB}.

(** The pattern [\w+|[^\w\s]]. *)
Definition pattern : regex :=
  Alt (Plus isword) (CharClass (fun c => negb (isword c || isspace c))).

Definition _heuristic_count (s : text) : nat := length (findall pattern s).

(** The body of the [try] block of [count_tokens]; [installed] is [None]
    when [import tiktoken] fails. *)
Definition import_tiktoken (installed : option Tiktoken) : Exc Tiktoken :=
  match installed with
  | Some tk => Ok tk
  | None => Raise ImportError
  end.

Definition model_encoding (tk : Tiktoken) (model_name : option text)
  : option Encoding :=
  match model_name with
  | Some m =>
      if truthy_str model_name then
        match encoding_for_model tk m with
        | Ok e => Some e
        | Raise _ => None
        end
      else None
  | None => None
  end.

Definition tiktoken_count (installed : option Tiktoken) (s : text)
  (model_name : option text) : Exc nat :=
  tk <- import_tiktoken installed ;;
  enc <- match model_encoding tk model_name with
         | Some e => Ok e
         | None => get_encoding tk (lit "cl100k_base")
         end ;;
  toks <- encode enc s ;;
  Ok (length toks).

Definition count_tokens (installed : option Tiktoken) (s : text)
  (model_name : option text) : nat :=
  match tiktoken_count installed s model_name with
  | Ok n => n
  | Raise _ => _heuristic_count s
  end.

End WithDB.
End Tokenizer.

(** ** backend/python_service/prompts/runtime_builder.py *)

Module RuntimeBuilder.

(** The file system as the module sees it, with a trace of the accesses
    made.  At a path there is nothing ([None]), or a file whose bytes
    decode to a text ([Some (Ok c)]), or something that exists but that
    [read_text] cannot read: a directory, a file without read permission,
    bytes that are not UTF-8 ([Some (Raise e)], with the error raised). *)
Inductive io_event : Type :=
| PathExists (p : text)
| ReadText (p : text).

Record World := {
  files : text -> option (Exc text);
  trace : list io_event
}.

Definition IO (A : Type) : Type := World -> Exc A * World.

Definition ret {A : Type} (a : A) : IO A := fun w => (Ok a, w).

Definition raise {A : Type} (e : exn) : IO A := fun w => (Raise e, w).

Definition iobind {A B : Type} (m : IO A) (k : A -> IO B) : IO B :=
  fun w =>
    match m w with
    | (Ok a, w') => k a w'
    | (Raise e, w') => (Raise e, w')
    end.

Definition emit (ev : io_event) (w : World) : World :=
  {| files := files w; trace := trace w ++ [ev] |}.

Definition path_exists (p : text) : IO bool :=
  fun w =>
    (Ok (match files w p with Some _ => true | None => false end),
     emit (PathExists p) w).

Definition read_text (p : text) : IO text :=
  fun w =>
    (match files w p with
     | Some content => content
     | None => Raise (FileNotFoundError p)
     end,
     emit (ReadText p) w).

Record PromptParts := { system : text; user : text }.

Section WithDB.
Context {db : UnicodeDB}.
Variable SYSTEM_PROMPT_PATH : text.

Definition load_system_prompt : IO text :=
  iobind (path_exists SYSTEM_PROMPT_PATH) (fun found =>
  if negb found then
    raise (FileNotFoundError
             (lit "Missing system prompt at " ++ SYSTEM_PROMPT_PATH))
  else
    iobind (read_text SYSTEM_PROMPT_PATH) (fun c => ret (strip c))).

Definition build_prompt (user_message : text) : IO PromptParts :=
  iobind load_system_prompt (fun system =>
  let user := strip user_message in
  ret {| system := system; user := user |}).

End WithDB.
End RuntimeBuilder.

(** ** scripts/demo/conversation_memory_demo.py *)

Module Demo.

(** A turn is the dict [{"role": role, "content": content}]. *)
Record Turn := { role : text; content : text }.

(** What the module found when it was loaded: whether [tokenizer.py] was
    there ([_tok_mod] is not [None]) and whether [tiktoken] is installed. *)
Record Runtime := {
  tok_mod_loaded : bool;
  tiktoken : option Tokenizer.Tiktoken
}.

Inductive Method : Type :=
| token_budget_method (b : Z)
| max_turns_method (n : Z).

Section WithDB.
Context {db : UnicodeDB}.

Definition colon : char := 58%N.

Definition recognized_role (r : text) : bool :=
  text_eqb r (lit "user") || text_eqb r (lit "assistant").

Definition parse_turn (turn_str : text) : option Turn :=
  if negb (contains colon turn_str) then None
  else
    let (role0, content0) := split_once colon turn_str in
    let role := lower (strip role0) in
    let content := strip content0 in
    if negb (recognized_role role) then None
    else Some {| role := role; content := content |}.

Definition normalize_history (turns : list text) : list Turn :=
  fold_left
    (fun parsed t =>
       match parse_turn t with
       | Some item => parsed ++ [item]
       | None => parsed
       end)
    turns [].

Definition count_tokens (rt : Runtime) (s : text) (model_name : option text)
  : nat :=
  if negb (tok_mod_loaded rt) then length (findall Tokenizer.pattern s)
  else Tokenizer.count_tokens (tiktoken rt) s model_name.

Definition window_by_max_turns (history : list Turn) (max_turns : Z)
  : list Turn :=
  if (max_turns <=? 0)%Z then [] else slice_from (- max_turns) history.

(** The line of a turn in the history block. *)
Definition render_line (item : Turn) : text :=
  lit "- " ++ capitalize (role item) ++ lit ": " ++ content item ++ [10%N].

(** The loop of [window_by_token_budget] over [reversed(history)], with
    its two variables [acc] and [total]; the first branch is the [break]. *)
Fixpoint budget_loop (rt : Runtime) (budget : Z) (model_name : option text)
  (items : list Turn) (acc : list Turn) (total : Z) : list Turn :=
  match items with
  | [] => acc
  | item :: rest =>
      let line := render_line item in
      let tokens := Z.of_nat (count_tokens rt line model_name) in
      if (total + tokens >? budget)%Z then acc
      else budget_loop rt budget model_name rest (acc ++ [item])
             (total + tokens)%Z
  end.

Definition window_by_token_budget (rt : Runtime) (history : list Turn)
  (budget : Z) (model_name : option text) : list Turn :=
  rev (budget_loop rt budget model_name (rev history) [] 0%Z).

(** The choice of the windower in the script's main block. *)
Definition main_window (rt : Runtime) (history : list Turn) (max_turns : Z)
  (token_budget : option Z) (model_hint : option text)
  : list Turn * Method :=
  match token_budget with
  | Some b =>
      if truthy_int token_budget && (b >? 0)%Z then
        (window_by_token_budget rt history b model_hint,
         token_budget_method b)
      else (window_by_max_turns history max_turns, max_turns_method max_turns)
  | None => (window_by_max_turns history max_turns, max_turns_method max_turns)
  end.

(** The line of a turn in the instruction and in the history text of the
    main block (no newline at its end). *)
Definition history_line (item : Turn) : text :=
  lit "- " ++ capitalize (role item) ++ lit ": " ++ content item.

Definition build_instruction (history : list Turn) (current_message : text)
  : text :=
  let lines :=
    [lit "You are a helpful assistant. Use the recent conversation history for context.";
     lit "If the history does not contain the answer, ask clarifying questions or say you don't know.";
     10%N :: lit "RECENT HISTORY:"] in
  let lines :=
    match history with
    | [] => lines ++ [lit "(none)"]
    | _ :: _ => lines ++ map history_line history
    end in
  let lines := lines ++ [10%N :: lit "CURRENT REQUEST:"] in
  let lines := lines ++ [current_message] in
  join [10%N] lines.

(** The history block whose tokens the main block reports. *)
Definition hist_text (window : list Turn) : text :=
  join [10%N] (map history_line window)
  ++ match window with [] => [] | _ :: _ => [10%N] end.

(** What the main block prints, from the parsed arguments on. *)
Record Report := {
  window_method : Method;
  included_turns : nat;
  system_out : text;
  instruction_out : text;
  history_tokens : option nat
}.

Definition main (path : text) (rt : Runtime) (msg : text)
  (turns : list text) (max_turns : Z) (token_budget : option Z)
  (model_hint : option text) : RuntimeBuilder.IO Report :=
  let history := normalize_history turns in
  let (window, method) :=
    main_window rt history max_turns token_budget model_hint in
  let instruction := build_instruction window msg in
  RuntimeBuilder.iobind (RuntimeBuilder.build_prompt path instruction)
    (fun parts =>
       RuntimeBuilder.ret
         {| window_method := method;
            included_turns := length window;
            system_out := RuntimeBuilder.system parts;
            instruction_out := instruction;
            history_tokens :=
              match token_budget with
              | Some b =>
                  if truthy_int token_budget && (b >? 0)%Z
                  then Some (count_tokens rt (hist_text window) model_hint)
                  else None
              | None => None
              end |}).

End WithDB.
End Demo.

(** ** scripts/demo/token_count_demo.py *)

Module TokenCountDemo.

Record Counts := { sys_tokens : nat; usr_tokens : nat; total : nat }.

Section WithDB.
Context {db : UnicodeDB}.

(** The main block, from the parsed arguments on; the script has stopped
    earlier if [tokenizer.py] is missing. *)
Definition main (path : text) (installed : option Tokenizer.Tiktoken)
  (user_msg : text) (model_name : option text) : RuntimeBuilder.IO Counts :=
  RuntimeBuilder.iobind (RuntimeBuilder.build_prompt path user_msg)
    (fun parts =>
       let sys_tokens :=
         Tokenizer.count_tokens installed (RuntimeBuilder.system parts)
           model_name in
       let usr_tokens :=
         Tokenizer.count_tokens installed (RuntimeBuilder.user parts)
           model_name in
       let total := sys_tokens + usr_tokens in
       RuntimeBuilder.ret
         {| sys_tokens := sys_tokens; usr_tokens := usr_tokens;
            total := total |}).

End WithDB.
End TokenCountDemo.

(** ** JSON values, as [json.loads] returns them *)

Module Json.

(** A float is kept as the literal it was read from: the sources never
    look inside one.  An object is a [dict]; it is kept as the list of
    its items, looked up by key. *)
#[local] Unset Elimination Schemes.
Inductive json : Type :=
| JNull
| JBool (b : bool)
| JInt (z : Z)
| JFloat (literal : text)
| JString (s : text)
| JArray (items : list json)
| JObject (items : list (text * json)).
#[local] Set Elimination Schemes.

Definition dict := list (text * json).

(** [d.get(k)], with [None] for Python's [None] of a missing key. *)
Definition get (k : text) (d : dict) : option json :=
  match find (fun kv => text_eqb (fst kv) k) d with
  | Some kv => Some (snd kv)
  | None => None
  end.

Definition has_key (d : dict) (k : text) : bool :=
  match get k d with Some _ => true | None => false end.

(** [isinstance(v, list) and v]: a non-empty array. *)
Definition nonempty_list (v : json) : bool :=
  match v with
  | JArray (_ :: _) => true
  | _ => false
  end.

(** [isinstance(v, int) and lo <= v <= hi]; [bool] is a subclass of
    [int], [True] being 1 and [False] 0. *)
Definition int_between (lo hi : Z) (v : json) : bool :=
  match v with
  | JInt z => (lo <=? z)%Z && (z <=? hi)%Z
  | JBool b => let z := if b then 1%Z else 0%Z in (lo <=? z)%Z && (z <=? hi)%Z
  | _ => false
  end.

(** [sorted(set(keys))] for strings: ascending by code points, without
    duplicates. *)
Fixpoint text_ltb (a b : text) : bool :=
  match a, b with
  | _, [] => false
  | [], _ :: _ => true
  | x :: a', y :: b' => (x <? y)%N || ((x =? y)%N && text_ltb a' b')
  end.

Fixpoint insert_sorted (k : text) (l : list text) : list text :=
  match l with
  | [] => [k]
  | x :: l' =>
      if text_eqb k x then l
      else if text_ltb k x then k :: l
      else x :: insert_sorted k l'
  end.

Definition sorted_set (l : list text) : list text :=
  fold_right insert_sorted [] l.

(** [str] of a list of strings, given [repr] on strings. *)
Definition list_repr (repr : json -> text) (l : list text) : text :=
  lit "[" ++ join (lit ", ") (map (fun k => repr (JString k)) l) ++ lit "]".

(** The [jsonschema] package, when it is installed: whether
    [validate(instance, schema)] returns rather than raises. *)
Definition Jsonschema := json -> json -> bool.

End Json.

(** ** scripts/demo/structured_output_demo.py *)

Module StructuredOutputDemo.
Import Json.

Section WithRuntime.
Variable repr : json -> text.
Variable jsonschema : option Jsonschema.

Definition required_keys : list text :=
  [lit "strengths"; lit "weaknesses"; lit "score"; lit "recommendations"].

Definition validate_payload (payload : json) (schema : json) : bool * text :=
  let validated :=
    match jsonschema with
    | Some validate => validate payload schema
    | None => false
    end in
  if validated then (true, lit "Valid per JSON Schema")
  else
    match payload with
    | JObject d =>
        if negb (forallb (has_key d) required_keys) then
          let missing := filter (fun k => negb (has_key d k)) required_keys in
          (false, lit "Missing keys: " ++ list_repr repr (sorted_set missing))
        else if negb (match get (lit "strengths") d with
                      | Some v => nonempty_list v
                      | None => false
                      end) then
          (false, lit "strengths must be a non-empty array")
        else if negb (match get (lit "weaknesses") d with
                      | Some v => nonempty_list v
                      | None => false
                      end) then
          (false, lit "weaknesses must be a non-empty array")
        else if negb (match get (lit "recommendations") d with
                      | Some v => nonempty_list v
                      | None => false
                      end) then
          (false, lit "recommendations must be a non-empty array")
        else if negb (match get (lit "score") d with
                      | Some v => int_between 0 10 v
                      | None => false
                      end) then
          (false, lit "score must be an integer between 0 and 10")
        else
          (true,
           lit "Valid by minimal checks (install jsonschema for strict validation)")
    | _ => (false, lit "Payload must be a JSON object")
    end.

End WithRuntime.
End StructuredOutputDemo.

(** ** scripts/demo/tool_calling_demo.py *)

Module ToolCallingDemo.
Import Json.

Definition str (s : string) : json := JString (lit s).

Definition field (k : string) (v : json) : text * json := (lit k, v).

Definition draft : text * json :=
  field "$schema" (str "https://json-schema.org/draft/2020-12/schema").

Definition TOOLS : dict := [
  field "get_weather" (JObject [
    field "description" (str "Get weather for a city");
    field "parameters" (JObject [
      draft;
      field "type" (str "object");
      field "additionalProperties" (JBool false);
      field "required" (JArray [str "location"]);
      field "properties" (JObject [
        field "location" (JObject [
          field "type" (str "string"); field "minLength" (JInt 1)]);
        field "unit" (JObject [
          field "type" (str "string");
          field "enum" (JArray [str "C"; str "F"]);
          field "default" (str "C")]);
        field "date" (JObject [
          field "type" (str "string");
          field "description" (str "YYYY-MM-DD (optional)")])])])]);
  field "search_docs" (JObject [
    field "description" (str "Search internal documentation");
    field "parameters" (JObject [
      draft;
      field "type" (str "object");
      field "additionalProperties" (JBool false);
      field "required" (JArray [str "query"]);
      field "properties" (JObject [
        field "query" (JObject [
          field "type" (str "string"); field "minLength" (JInt 3)]);
        field "top_k" (JObject [
          field "type" (str "integer"); field "minimum" (JInt 1);
          field "maximum" (JInt 20); field "default" (JInt 5)])])])]);
  field "schedule_meeting" (JObject [
    field "description" (str "Create a calendar event");
    field "parameters" (JObject [
      draft;
      field "type" (str "object");
      field "additionalProperties" (JBool false);
      field "required" (JArray [str "title"; str "date"; str "attendees"]);
      field "properties" (JObject [
        field "title" (JObject [
          field "type" (str "string"); field "minLength" (JInt 3)]);
        field "date" (JObject [
          field "type" (str "string");
          field "description" (str "YYYY-MM-DD or ISO datetime")]);
        field "attendees" (JObject [
          field "type" (str "array");
          field "items" (JObject [field "type" (str "string")]);
          field "minItems" (JInt 1)]);
        field "duration_minutes" (JObject [
          field "type" (str "integer"); field "minimum" (JInt 15);
          field "default" (JInt 30)])])])])
].

(** What [validate_tool_call] does: it returns a pair, or it raises
    [TypeError] when an unhashable value is looked up in [TOOLS]. *)
Inductive outcome : Type :=
| Returned (ok : bool) (info : text)
| TypeError (unhashable : text).

(** [TOOLS[tool]["parameters"]] for the name of a tool. *)
Definition parameters (name : text) : json :=
  match get name TOOLS with
  | Some (JObject spec) =>
      match get (lit "parameters") spec with
      | Some schema => schema
      | None => JNull
      end
  | _ => JNull
  end.

(** [schema.get("required", [])], as a list of strings. *)
Definition required (schema : json) : list text :=
  match schema with
  | JObject d =>
      match get (lit "required") d with
      | Some (JArray items) =>
          flat_map (fun j => match j with JString s => [s] | _ => [] end)
            items
      | _ => []
      end
  | _ => []
  end.

Section WithRuntime.
Variable repr : json -> text.
Variable jsonschema : option Jsonschema.

Definition validate_known_tool (name : text) (args : json) : outcome :=
  match args with
  | JObject a =>
      let schema := parameters name in
      let validated :=
        match jsonschema with
        | Some validate => validate args schema
        | None => false
        end in
      if validated then Returned true (lit "Valid per JSON Schema")
      else
        let req := required schema in
        if negb (forallb (has_key a) req) then
          let missing := filter (fun k => negb (has_key a k)) req in
          Returned false
            (lit "Missing required argument(s): "
             ++ list_repr repr (sorted_set missing))
        else
          Returned true
            (lit "Valid by minimal checks (install jsonschema for strict validation)")
  | _ => Returned false (lit "'arguments' must be an object")
  end.

Definition validate_tool_call (payload : json) : outcome :=
  match payload with
  | JObject d =>
      let tool := match get (lit "tool") d with Some v => v | None => JNull end in
      let args :=
        match get (lit "arguments") d with Some v => v | None => JNull end in
      match tool with
      | JArray _ => TypeError (lit "list")
      | JObject _ => TypeError (lit "dict")
      | JString name =>
          if negb (has_key TOOLS name) then
            Returned false (lit "Unknown tool: " ++ repr tool)
          else validate_known_tool name args
      | _ => Returned false (lit "Unknown tool: " ++ repr tool)
      end
  | _ => Returned false (lit "Payload must be an object")
  end.

End WithRuntime.
End ToolCallingDemo.

(** ** The specification's own words, for comparison with the code *)

Import Tokenizer RuntimeBuilder Demo.

(** Number of maximal runs of word characters: a run starts at a word
    character that does not follow one ([inside] tells whether the
    previous character was a word character). *)
Fixpoint word_runs (isw : char -> bool) (inside : bool) (s : text) : nat :=
  match s with
  | [] => 0
  | c :: s' =>
      (if isw c && negb inside then 1 else 0) + word_runs isw (isw c) s'
  end.

(** Number of characters that are neither word characters nor white
    space. *)
Definition lone_symbols (isw iss : char -> bool) (s : text) : nat :=
  length (filter (fun c => negb (isw c || iss c)) s).

Definition spec_heuristic_count {db : UnicodeDB} (s : text) : nat :=
  word_runs isword false s + lone_symbols isword isspace s.

(** A token of the heuristic: a non-empty run of word characters, or one
    character that is neither a word character nor white space. *)
Definition heuristic_token {db : UnicodeDB} (t : text) : Prop :=
  (t <> [] /\ forallb isword t = true)
  \/ (exists c, t = [c] /\ isword c = false /\ isspace c = false).

(** The turns a sequence of raw lines normalizes to, line by line. *)
Definition spec_normalize {db : UnicodeDB} (lines : list text) : list Turn :=
  flat_map
    (fun l => match parse_turn l with Some t => [t] | None => [] end)
    lines.

(** Token cost of a turn (of its rendered line) and of a history. *)
Definition line_cost {db : UnicodeDB} (rt : Runtime) (hint : option text)
  (t : Turn) : Z :=
  Z.of_nat (Demo.count_tokens rt (render_line t) hint).

Definition history_cost {db : UnicodeDB} (rt : Runtime) (hint : option text)
  (h : list Turn) : Z :=
  fold_right (fun t acc => (line_cost rt hint t + acc)%Z) 0%Z h.

(** [tiktoken], where the demo can reach it, never encodes a non-empty
    text as no tokens at all. *)
Definition encodes_nonempty (enc : Encoding) : Prop :=
  forall s toks, encode enc s = Ok toks -> s <> [] -> toks <> [].

Definition tiktoken_nonempty (rt : Runtime) : Prop :=
  forall tk name enc,
    tok_mod_loaded rt = true ->
    tiktoken rt = Some tk ->
    encoding_for_model tk name = Ok enc \/ get_encoding tk name = Ok enc ->
    encodes_nonempty enc.

(** An error occurs somewhere in the primary strategy of the estimator:
    the library is missing, the model is not recognized, or an error
    leaves the [try] block (default encoding missing, encoding failure). *)
Definition primary_error {db : UnicodeDB} (installed : option Tiktoken)
  (s : text) (model_name : option text) : Prop :=
  installed = None
  \/ (exists tk m, installed = Some tk /\ model_name = Some m
        /\ truthy_str model_name = true
        /\ raises (encoding_for_model tk m))
  \/ raises (tiktoken_count installed s model_name).

(** The form in which the [--turn] flag takes a turn: "role: text". *)
Definition turn_line (t : Turn) : text := role t ++ lit ": " ++ content t.

(** A text that neither starts nor ends with a white-space character. *)
Definition stripped {db : UnicodeDB} (s : text) : Prop :=
  (forall c rest, s = c :: rest -> isspace c = false)
  /\ (forall front c, s = front ++ [c] -> isspace c = false).

(** White-space characters that [\w] does not match (in the Unicode
    tables, all of them). *)
Definition plain_space {db : UnicodeDB} (c : char) : bool :=
  isspace c && negb (isword c).

(** Whether the last character before a position is a word character
    ([inside] if there is none). *)
Definition ends_inside (isw : char -> bool) (inside : bool) (s : text)
  : bool :=
  fold_left (fun _ c => isw c) s inside.

(** The fixed text before the history block of an instruction, the block
    itself (the rendered lines of the turns, or the placeholder line) and
    the fixed text between the block and the current message. *)
Definition instruction_header : text :=
  lit "You are a helpful assistant. Use the recent conversation history for context."
  ++ [10%N]
  ++ lit "If the history does not contain the answer, ask clarifying questions or say you don't know."
  ++ [10%N] ++ [10%N] ++ lit "RECENT HISTORY:" ++ [10%N].

Definition history_block {db : UnicodeDB} (window : list Turn) : text :=
  match window with
  | [] => lit "(none)" ++ [10%N]
  | _ :: _ => concat (map render_line window)
  end.

Definition instruction_footer : text :=
  [10%N] ++ lit "CURRENT REQUEST:" ++ [10%N].

(** The estimator of the demo is the heuristic one: [tokenizer.py] was
    not loaded, or [tiktoken] is not installed. *)
Definition heuristic_runtime (rt : Runtime) : Prop :=
  tok_mod_loaded rt = false \/ tiktoken rt = None.

(** The minimal checks of [validate_payload], as conditions on the
    payload: an object whose "strengths", "weaknesses" and
    "recommendations" are non-empty arrays and whose "score" is an integer
    from 0 to 10 or a boolean. *)
Definition has_nonempty_array (d : Json.dict) (k : text) : Prop :=
  exists x xs, Json.get k d = Some (Json.JArray (x :: xs)).

Definition passes_minimal_checks (payload : Json.json) : Prop :=
  exists d,
    payload = Json.JObject d
    /\ has_nonempty_array d (lit "strengths")
    /\ has_nonempty_array d (lit "weaknesses")
    /\ has_nonempty_array d (lit "recommendations")
    /\ ((exists z, Json.get (lit "score") d = Some (Json.JInt z)
                   /\ (0 <= z <= 10)%Z)
        \/ (exists b, Json.get (lit "score") d = Some (Json.JBool b))).

(** [jsonschema] is installed and accepts the instance. *)
Definition schema_accepts (jsonschema : option Json.Jsonschema)
  (instance schema : Json.json) : Prop :=
  exists validate, jsonschema = Some validate
                   /\ validate instance schema = true.

(** ** Concrete inputs used by the examples *)

Definition no_tiktoken : Runtime :=
  {| tok_mod_loaded := true; tiktoken := None |}.

(** An installation whose model table knows no model and whose default
    encoding gives one token per code point. *)
Definition per_char_encoding : Encoding := {| encode := fun s => Ok s |}.

Definition tiktoken_no_models : Tiktoken := {|
  encoding_for_model := fun m => Raise (KeyError m);
  get_encoding := fun _ => Ok per_char_encoding
|}.

Definition turn (r c : string) : Turn := {| role := lit r; content := lit c |}.

Definition five_lines : list text :=
  [lit "user:a"; lit "assistant:b"; lit "user:c"; lit "assistant:d";
   lit "user:e"].

(** A history whose middle turn is long: the rendered lines cost 4, 9 and
    4 tokens with the heuristic. *)
Definition uneven_history : list Turn :=
  [turn "user" "a"; turn "assistant" "b b b b b b"; turn "user" "c"].

Definition empty_world : World := {| files := fun _ => None; trace := [] |}.

(** A world in which every path is a directory. *)
Definition directory_world : World :=
  {| files := fun p => Some (Raise (IsADirectoryError p)); trace := [] |}.

(** A [jsonschema] that rejects every instance, a [repr] that prints
    nothing, a feedback payload with a property the schema does not
    allow, and two tool calls. *)
Definition rejecting_jsonschema : Json.Jsonschema := fun _ _ => false.

Definition silent_repr : Json.json -> text := fun _ => [].

Definition feedback_with_extra : Json.json :=
  Json.JObject
    [(lit "strengths", Json.JArray [Json.JString (lit "clear structure")]);
     (lit "weaknesses", Json.JArray [Json.JString (lit "too generic")]);
     (lit "score", Json.JInt 7);
     (lit "recommendations", Json.JArray [Json.JInt 1]);
     (lit "note", Json.JNull)].

Definition weather_call : Json.json :=
  Json.JObject
    [(lit "tool", Json.JString (lit "get_weather"));
     (lit "arguments",
      Json.JObject [(lit "location", Json.JInt 5);
                    (lit "extra", Json.JNull)])].

Definition list_tool_call : Json.json :=
  Json.JObject
    [(lit "tool", Json.JArray [Json.JString (lit "get_weather")]);
     (lit "arguments", Json.JObject [])].

Definition prompt_world : World :=
  {| files :=
       fun _ => Some (Ok (10%N :: lit "  You are a mentor. " ++ [10%N]));
     trace := [] |}.

(** Decidable form of [is_ascii]. *)
Definition is_asciib (s : text) : bool := forallb (fun c => (c <? 128)%N) s.

(** ** Strings *)

Section StringFacts.
Variables sp sp' : char -> bool.

Lemma lstrip_with_suffix (s : text) :
  exists p, s = p ++ lstrip_with sp s /\ forallb sp p = true.
Proof.
  induction s as [|c s IH]; simpl.
  - exists []; auto.
  - destruct (sp c) eqn:E.
    + destruct IH as [p [Hs Hp]]. exists (c :: p); simpl.
      rewrite E, Hp. split; [congruence | reflexivity].
    + exists []; auto.
Qed.

Lemma lstrip_with_head (s : text) c t :
  lstrip_with sp s = c :: t -> sp c = false.
Proof.
  induction s as [|a s IH]; simpl; [discriminate|].
  destruct (sp a) eqn:E; auto.
  intros H; injection H as -> _; exact E.
Qed.

Lemma rstrip_with_prefix (s : text) :
  exists q, s = rstrip_with sp s ++ q /\ forallb sp q = true.
Proof.
  unfold rstrip_with.
  destruct (lstrip_with_suffix (rev s)) as [p [Hs Hp]].
  exists (rev p). split.
  - rewrite <- rev_app_distr, <- Hs, rev_involutive; reflexivity.
  - rewrite forallb_forall in *. intros x Hx. apply Hp, in_rev, Hx.
Qed.

Lemma rstrip_with_last (s : text) t c :
  rstrip_with sp s = t ++ [c] -> sp c = false.
Proof.
  unfold rstrip_with. intros H.
  apply (f_equal (@rev char)) in H.
  rewrite rev_involutive, rev_app_distr in H. simpl in H.
  eapply lstrip_with_head; eauto.
Qed.

Lemma strip_with_head (s : text) c t :
  strip_with sp s = c :: t -> sp c = false.
Proof.
  unfold strip_with. intros H.
  destruct (rstrip_with_prefix (lstrip_with sp s)) as [q [Hs _]].
  rewrite H in Hs. simpl in Hs.
  eapply lstrip_with_head; eauto.
Qed.

Lemma strip_with_last (s : text) t c :
  strip_with sp s = t ++ [c] -> sp c = false.
Proof. unfold strip_with. apply rstrip_with_last. Qed.

Lemma lstrip_with_ext (s : text) :
  (forall c, In c s -> sp c = sp' c) ->
  lstrip_with sp s = lstrip_with sp' s.
Proof.
  induction s as [|a s IH]; simpl; intros H; [reflexivity|].
  rewrite <- (H a) by auto. destruct (sp a); auto.
Qed.

Lemma lstrip_with_incl (s : text) c : In c (lstrip_with sp s) -> In c s.
Proof.
  induction s as [|a s IH]; simpl; auto.
  destruct (sp a); simpl; auto.
Qed.

End StringFacts.

Lemma strip_with_incl sp (s : text) c : In c (strip_with sp s) -> In c s.
Proof.
  unfold strip_with, rstrip_with. intros H.
  apply in_rev, lstrip_with_incl, in_rev, lstrip_with_incl in H. exact H.
Qed.

Lemma strip_with_ext sp sp' (s : text) :
  (forall c, In c s -> sp c = sp' c) ->
  strip_with sp s = strip_with sp' s.
Proof.
  intros H. unfold strip_with, rstrip_with.
  rewrite (lstrip_with_ext sp sp' s H).
  f_equal. apply lstrip_with_ext.
  intros c Hc. apply H. apply in_rev, lstrip_with_incl in Hc. exact Hc.
Qed.

Lemma is_asciib_spec (s : text) : is_asciib s = true -> is_ascii s.
Proof.
  unfold is_asciib, is_ascii. rewrite forallb_forall, Forall_forall.
  intros H c Hc. apply N.ltb_lt, H, Hc.
Qed.

Lemma is_ascii_in (s : text) c : is_ascii s -> In c s -> (c < 128)%N.
Proof. unfold is_ascii. rewrite Forall_forall. auto. Qed.

Lemma is_ascii_incl (s s' : text) :
  is_ascii s -> (forall c, In c s' -> In c s) -> is_ascii s'.
Proof. unfold is_ascii. rewrite !Forall_forall. auto. Qed.

Lemma strip_ascii {db : UnicodeDB} (s : text) :
  is_ascii s -> strip s = @strip ascii_db s.
Proof.
  intros H. unfold strip. apply strip_with_ext.
  intros c Hc. apply isspace_ascii. eapply is_ascii_in; eauto.
Qed.

(** ** The scan of [findall] *)

Lemma findall_from_ext (r : regex) (s : text) :
  forall k, findall_from r k s = findall_from r 0 (skipn k s).
Proof.
  induction s as [|c s IH]; intros k.
  - destruct k; reflexivity.
  - destruct k as [|k]; [reflexivity|]. simpl. apply IH.
Qed.

Lemma take_while_firstn p (s : text) :
  firstn (length (take_while p s)) s = take_while p s.
Proof.
  induction s as [|c s IH]; simpl; [reflexivity|].
  destruct (p c); simpl; [rewrite IH|]; reflexivity.
Qed.

Lemma take_while_all p (s : text) : forallb p (take_while p s) = true.
Proof.
  induction s as [|c s IH]; simpl; [reflexivity|].
  destruct (p c) eqn:E; simpl; [rewrite E, IH|]; reflexivity.
Qed.

Section HeuristicFacts.
Context {db : UnicodeDB}.

Lemma match_at_word c (s : text) :
  isword c = true ->
  match_at pattern (c :: s) = Some (S (length (take_while isword s))).
Proof. intros E. simpl. rewrite E. reflexivity. Qed.

Lemma match_at_other c (s : text) :
  isword c = false ->
  match_at pattern (c :: s)
  = if negb (isword c || isspace c) then Some 1 else None.
Proof. intros E. simpl. rewrite E. reflexivity. Qed.

(** The two states of the scan: at a token boundary, and inside a run of
    word characters with exactly the rest of the run left to skip. *)
Lemma heuristic_scan_count (s : text) :
  length (findall_from pattern 0 s)
    = word_runs isword false s + lone_symbols isword isspace s
  /\ length (findall_from pattern (length (take_while isword s)) s)
    = word_runs isword true s + lone_symbols isword isspace s.
Proof.
  unfold lone_symbols.
  induction s as [|c s [IH0 IH1]]; [split; reflexivity|].
  assert (Hboundary :
    length (findall_from pattern 0 (c :: s))
    = (if isword c then 1 else 0) + word_runs isword (isword c) s
      + length (filter (fun c => negb (isword c || isspace c)) (c :: s))).
  { destruct (isword c) eqn:E.
    - cbn [findall_from]. rewrite (match_at_word c s E).
      cbn [filter length]. rewrite E. cbn [orb negb]. rewrite IH1.
      reflexivity.
    - cbn [findall_from]. rewrite (match_at_other c s E).
      cbn [filter]. rewrite E. cbn [orb].
      destruct (isspace c); cbn [negb length firstn]; rewrite IH0; lia. }
  split.
  - rewrite Hboundary. cbn [word_runs].
    destruct (isword c); cbn [andb negb]; reflexivity.
  - cbn [take_while]. destruct (isword c) eqn:E.
    + cbn [length findall_from word_runs filter].
      rewrite E. cbn [andb negb orb]. rewrite IH1. reflexivity.
    + cbn [length]. rewrite Hboundary. cbn [word_runs].
      rewrite E. cbn [andb]. reflexivity.
Qed.

Lemma heuristic_scan_tokens (s : text) :
  forall k, Forall heuristic_token (findall_from pattern k s).
Proof.
  induction s as [|c s IH]; intros k; [constructor|].
  destruct k as [|k]; [|apply IH].
  cbn [findall_from].
  destruct (isword c) eqn:E.
  - rewrite (match_at_word c s E). constructor; [|apply IH].
    left. cbn [firstn]. split; [discriminate|].
    cbn [forallb]. rewrite E, take_while_firstn, take_while_all.
    reflexivity.
  - rewrite (match_at_other c s E).
    destruct (negb (isword c || isspace c)) eqn:Es; [|apply IH].
    constructor; [|apply IH].
    right. exists c.
    apply negb_true_iff, orb_false_iff in Es. cbn [firstn]. tauto.
Qed.

Lemma heuristic_count_eq_spec (s : text) :
  _heuristic_count s = spec_heuristic_count s.
Proof. apply (heuristic_scan_count s). Qed.

(** A text that starts with a symbol has at least one token. *)
Lemma heuristic_count_symbol_pos c (s : text) :
  isword c = false -> isspace c = false -> 1 <= _heuristic_count (c :: s).
Proof.
  intros Hw Hs. rewrite heuristic_count_eq_spec.
  unfold spec_heuristic_count, lone_symbols. cbn [filter].
  rewrite Hw, Hs. cbn [orb negb length]. lia.
Qed.

End HeuristicFacts.

Lemma findall_from_pattern_ext (db1 db2 : UnicodeDB) (s : text) :
  (forall c, In c s ->
     @isword db1 c = @isword db2 c /\ @isspace db1 c = @isspace db2 c) ->
  forall k, findall_from (@pattern db1) k s = findall_from (@pattern db2) k s.
Proof.
  induction s as [|c s IH]; intros H k; [reflexivity|].
  assert (Hs : forall k, findall_from (@pattern db1) k s
                         = findall_from (@pattern db2) k s).
  { apply IH. intros; apply H; simpl; auto. }
  assert (Htw : take_while (@isword db1) s = take_while (@isword db2) s).
  { clear IH Hs. induction s as [|a s IHs]; [reflexivity|]. simpl.
    destruct (H a) as [-> _]; [simpl; auto|].
    destruct (@isword db2 a); [|reflexivity]. f_equal.
    apply IHs. intros x [Hx|Hx]; apply H; simpl; auto. }
  destruct k as [|k]; [|apply Hs].
  destruct (H c) as [Hw Hsp]; [simpl; auto|].
  cbn [findall_from].
  destruct (@isword db2 c) eqn:E.
  - rewrite (@match_at_word db1 c s), (@match_at_word db2 c s) by congruence.
    rewrite Htw, Hs. reflexivity.
  - rewrite (@match_at_other db1 c s), (@match_at_other db2 c s)
      by congruence.
    rewrite Hw, E, Hsp.
    destruct (negb (false || @isspace db2 c)); rewrite Hs; reflexivity.
Qed.

Lemma findall_pattern_ascii {db : UnicodeDB} (s : text) :
  is_ascii s -> findall pattern s = findall (@pattern ascii_db) s.
Proof.
  intros H. apply findall_from_pattern_ext.
  intros c Hc. pose proof (is_ascii_in s c H Hc).
  split; [apply isword_ascii | apply isspace_ascii]; assumption.
Qed.

(** ** The token estimator *)

Lemma hello_world_is_ascii : is_ascii (lit "Hello, world!").
Proof. apply is_asciib_spec. reflexivity. Qed.

(** C7: the heuristic estimator is a function of the text alone; its value,
    a natural number, is the number of maximal runs of word characters plus
    the number of characters that are neither word characters nor white
    space, and every token it finds is such a run or such a character; the
    same count is what [count_tokens] gives when [tiktoken] is missing and
    what the demo's inline fallback gives; the empty text has 0 tokens and
    "Hello, world!" has the 4 tokens "Hello", ",", "world", "!". *)
Theorem heuristic_count_words_and_symbols {db : UnicodeDB}
  (s : text) (hint : option text) (tk : option Tiktoken) :
  _heuristic_count s = spec_heuristic_count s
  /\ Forall heuristic_token (findall pattern s)
  /\ Tokenizer.count_tokens None s hint = _heuristic_count s
  /\ Demo.count_tokens {| tok_mod_loaded := false; tiktoken := tk |} s hint
     = _heuristic_count s
  /\ _heuristic_count [] = 0
  /\ findall pattern (lit "Hello, world!")
     = [lit "Hello"; lit ","; lit "world"; lit "!"]
  /\ Tokenizer.count_tokens None (lit "Hello, world!") None = 4.
Proof.
  split; [apply heuristic_count_eq_spec|].
  split; [apply heuristic_scan_tokens|].
  assert (Hhello : findall pattern (lit "Hello, world!")
                   = [lit "Hello"; lit ","; lit "world"; lit "!"]).
  { rewrite (findall_pattern_ascii _ hello_world_is_ascii). reflexivity. }
  repeat split; try reflexivity; try exact Hhello.
  unfold Tokenizer.count_tokens, tiktoken_count. cbn [import_tiktoken bind].
  unfold _heuristic_count. rewrite Hhello. reflexivity.
Qed.

Lemma count_tokens_ok {db : UnicodeDB} installed (s : text) hint n :
  tiktoken_count installed s hint = Ok n ->
  Tokenizer.count_tokens installed s hint = n.
Proof. unfold Tokenizer.count_tokens. intros ->. reflexivity. Qed.

Lemma count_tokens_raise {db : UnicodeDB} installed (s : text) hint :
  raises (tiktoken_count installed s hint) ->
  Tokenizer.count_tokens installed s hint = _heuristic_count s.
Proof. unfold Tokenizer.count_tokens. intros [e ->]. reflexivity. Qed.

Lemma model_encoding_unrecognized tk m :
  raises (encoding_for_model tk m) -> model_encoding tk (Some m) = None.
Proof.
  intros [e He]. unfold model_encoding. rewrite He.
  destruct (truthy_str (Some m)); reflexivity.
Qed.

(** C9, as the claim has it, fails: with [tiktoken] installed, a model
    name its table does not know and a working default encoding, the
    lookup raises and yet the count returned is the default encoding's 2,
    not the heuristic's 1. *)
Lemma unrecognized_model_uses_default_encoding :
  primary_error (db := ascii_db) (Some tiktoken_no_models) (lit "ab")
    (Some (lit "foo"))
  /\ Tokenizer.count_tokens (db := ascii_db) (Some tiktoken_no_models)
       (lit "ab") (Some (lit "foo")) = 2
  /\ _heuristic_count (db := ascii_db) (lit "ab") = 1
  /\ ~ (forall installed s hint,
          primary_error (db := ascii_db) installed s hint ->
          Tokenizer.count_tokens (db := ascii_db) installed s hint
          = _heuristic_count (db := ascii_db) s).
Proof.
  assert (Herr : primary_error (db := ascii_db) (Some tiktoken_no_models)
                   (lit "ab") (Some (lit "foo"))).
  { right; left. exists tiktoken_no_models, (lit "foo").
    repeat split; try reflexivity. exists (KeyError (lit "foo")).
    reflexivity. }
  repeat split; try reflexivity; try exact Herr.
  intros H. specialize (H _ _ _ Herr). vm_compute in H. discriminate.
Qed.

(** C9, amended: [count_tokens] always returns a number and no error of
    the primary strategy reaches the caller.  An error that leaves the
    [try] block (missing library, default encoding unavailable, encoding
    failure) gives the heuristic count; an unrecognized model name is
    swallowed earlier and the call goes on as if no model had been given,
    with the default encoding; when nothing raises, the count is the
    tokenizer's. *)
Theorem count_tokens_absorbs_primary_errors {db : UnicodeDB}
  (installed : option Tiktoken) (s : text) (hint : option text) :
  (forall e, tiktoken_count installed s hint = Raise e ->
     Tokenizer.count_tokens installed s hint = _heuristic_count s)
  /\ (forall n, tiktoken_count installed s hint = Ok n ->
        Tokenizer.count_tokens installed s hint = n)
  /\ (exists n, Tokenizer.count_tokens installed s hint = n
        /\ (n = _heuristic_count s
            \/ tiktoken_count installed s hint = Ok n))
  /\ Tokenizer.count_tokens None s hint = _heuristic_count s
  /\ (forall tk m, installed = Some tk -> hint = Some m ->
        raises (encoding_for_model tk m) ->
        Tokenizer.count_tokens installed s hint
        = Tokenizer.count_tokens installed s None)
  /\ (forall tk, installed = Some tk ->
        model_encoding tk hint = None ->
        raises (get_encoding tk (lit "cl100k_base")) ->
        Tokenizer.count_tokens installed s hint = _heuristic_count s)
  /\ (forall tk enc, installed = Some tk ->
        model_encoding tk hint = Some enc
        \/ (model_encoding tk hint = None
            /\ get_encoding tk (lit "cl100k_base") = Ok enc) ->
        raises (encode enc s) ->
        Tokenizer.count_tokens installed s hint = _heuristic_count s).
Proof.
  split; [intros e He; apply count_tokens_raise; exists e; exact He|].
  split; [intros n; apply count_tokens_ok|].
  split.
  { unfold Tokenizer.count_tokens.
    destruct (tiktoken_count installed s hint) as [n|e]; eexists; eauto. }
  split; [reflexivity|].
  split.
  { intros tk m -> -> Hr.
    unfold Tokenizer.count_tokens, tiktoken_count.
    cbn [import_tiktoken bind].
    rewrite (model_encoding_unrecognized tk m Hr). reflexivity. }
  split.
  { intros tk -> Hm [e He]. apply count_tokens_raise. exists e.
    unfold tiktoken_count. cbn [import_tiktoken bind].
    rewrite Hm, He. reflexivity. }
  intros tk enc -> Henc [e He]. apply count_tokens_raise. exists e.
  unfold tiktoken_count. cbn [import_tiktoken bind].
  destruct Henc as [Hm | [Hm Hg]]; rewrite Hm; [|rewrite Hg];
    cbn [bind]; rewrite He; reflexivity.
Qed.

Lemma count_tokens_absorbs_primary_errors_witness :
  Tokenizer.count_tokens (db := ascii_db) (Some tiktoken_no_models)
    (lit "ab") (Some (lit "foo")) = 2
  /\ Tokenizer.count_tokens (db := ascii_db) (Some tiktoken_no_models)
       (lit "ab") (Some (lit "foo"))
     = Tokenizer.count_tokens (db := ascii_db) (Some tiktoken_no_models)
         (lit "ab") None.
Proof.
  pose proof (count_tokens_absorbs_primary_errors (db := ascii_db)
                (Some tiktoken_no_models) (lit "ab") (Some (lit "foo")))
    as [_ [Hok [_ [_ [Hmodel _]]]]].
  split.
  - apply Hok. reflexivity.
  - apply (Hmodel tiktoken_no_models (lit "foo")); try reflexivity.
    exists (KeyError (lit "foo")). reflexivity.
Defined.

(** ** The prompt assembler *)

Section PromptFacts.
Context {db : UnicodeDB}.
Variable path : text.

Lemma load_system_prompt_missing (w : World) :
  files w path = None ->
  load_system_prompt path w
  = (Raise (FileNotFoundError (lit "Missing system prompt at " ++ path)),
     emit (PathExists path) w).
Proof.
  intros H. unfold load_system_prompt, iobind, path_exists.
  rewrite H. reflexivity.
Qed.

Lemma load_system_prompt_unreadable (w : World) (e : exn) :
  files w path = Some (Raise e) ->
  load_system_prompt path w
  = (Raise e, emit (ReadText path) (emit (PathExists path) w)).
Proof.
  intros H. unfold load_system_prompt, iobind, path_exists, read_text.
  rewrite H. cbn. rewrite H. reflexivity.
Qed.

Lemma load_system_prompt_present (w : World) (r : text) :
  files w path = Some (Ok r) ->
  load_system_prompt path w
  = (Ok (strip r), emit (ReadText path) (emit (PathExists path) w)).
Proof.
  intros H. unfold load_system_prompt, iobind, path_exists, read_text.
  rewrite H. cbn. rewrite H. reflexivity.
Qed.

End PromptFacts.

(** C8: when the system-prompt resource is missing, [build_prompt] ends
    with [FileNotFoundError], whose message names the resource; it has
    then probed the resource exactly once and done nothing else (no
    second probe, no read, no default prompt, no [PromptParts]), and the
    outcome is the same whatever the user message is: the message has not
    been looked at. *)
Theorem build_prompt_missing_resource {db : UnicodeDB}
  (path : text) (w : World) (user_message : text) :
  files w path = None ->
  build_prompt path user_message w
  = (Raise (FileNotFoundError (lit "Missing system prompt at " ++ path)),
     {| files := files w; trace := trace w ++ [PathExists path] |})
  /\ (forall parts w', build_prompt path user_message w <> (Ok parts, w'))
  /\ (forall other_message,
        build_prompt path other_message w
        = build_prompt path user_message w).
Proof.
  intros H.
  assert (Hb : forall m, build_prompt path m w
    = (Raise (FileNotFoundError (lit "Missing system prompt at " ++ path)),
       {| files := files w; trace := trace w ++ [PathExists path] |})).
  { intros m. unfold build_prompt, iobind.
    rewrite (load_system_prompt_missing path w H). reflexivity. }
  split; [apply Hb|]. split.
  - intros parts w'. rewrite Hb. discriminate.
  - intros m. rewrite !Hb. reflexivity.
Qed.

Lemma build_prompt_missing_resource_witness :
  build_prompt (db := ascii_db) (lit "system_prompt.md")
    (lit "Explain recursion") empty_world
  = (Raise (FileNotFoundError (lit "Missing system prompt at system_prompt.md")),
     {| files := files empty_world;
        trace := [PathExists (lit "system_prompt.md")] |}).
Proof.
  apply (build_prompt_missing_resource (db := ascii_db)
           (lit "system_prompt.md") empty_world (lit "Explain recursion")).
  reflexivity.
Defined.

(** C10: when the resource exists, the [system] field of the result is
    the resource text stripped, not the text as it is: it neither starts
    nor ends with a white-space character (the [user] field is the
    stripped message). *)
Theorem build_prompt_system_is_stripped {db : UnicodeDB}
  (path : text) (w : World) (user_message resource : text) :
  files w path = Some (Ok resource) ->
  (exists w',
     build_prompt path user_message w
     = (Ok {| system := strip resource; user := strip user_message |}, w'))
  /\ (forall parts w',
        build_prompt path user_message w = (Ok parts, w') ->
        system parts = strip resource
        /\ (forall c rest, system parts = c :: rest -> isspace c = false)
        /\ (forall front c, system parts = front ++ [c] ->
              isspace c = false)).
Proof.
  intros H.
  assert (Hb : build_prompt path user_message w
    = (Ok {| system := strip resource; user := strip user_message |},
       emit (ReadText path) (emit (PathExists path) w))).
  { unfold build_prompt, iobind.
    rewrite (load_system_prompt_present path w resource H). reflexivity. }
  split; [eexists; exact Hb|].
  intros parts w'. rewrite Hb. intros E. injection E as <- _.
  cbn [system]. split; [reflexivity|]. split.
  - intros c rest. apply strip_with_head.
  - intros front c. apply strip_with_last.
Qed.

Lemma build_prompt_system_is_stripped_witness :
  exists w',
    build_prompt (db := ascii_db) (lit "system_prompt.md")
      (lit " What is BFS? ") prompt_world
    = (Ok {| system := lit "You are a mentor."; user := lit "What is BFS?" |},
       w').
Proof.
  destruct (build_prompt_system_is_stripped (db := ascii_db)
              (lit "system_prompt.md") prompt_world (lit " What is BFS? ")
              (10%N :: lit "  You are a mentor. " ++ [10%N]) eq_refl)
    as [[w' Hw'] _].
  exists w'. exact Hw'.
Defined.

(** ** The history normalizer *)

Lemma contains_false (sep : char) (s : text) :
  contains sep s = false <-> ~ In sep s.
Proof.
  unfold contains. split.
  - intros H Hin. assert (E : existsb (N.eqb sep) s = true).
    { apply existsb_exists. exists sep. split; [exact Hin | apply N.eqb_refl]. }
    congruence.
  - intros H. destruct (existsb (N.eqb sep) s) eqn:E; [|reflexivity].
    apply existsb_exists in E. destruct E as [x [Hx Hx']].
    apply N.eqb_eq in Hx'. subst x. contradiction.
Qed.

Lemma split_once_first (sep : char) (before after : text) :
  ~ In sep before ->
  split_once sep (before ++ sep :: after) = (before, after).
Proof.
  induction before as [|c before IH]; simpl; intros H.
  - rewrite N.eqb_refl. reflexivity.
  - destruct (N.eqb c sep) eqn:E.
    + apply N.eqb_eq in E. subst c. exfalso. apply H. auto.
    + rewrite IH by tauto. reflexivity.
Qed.

Lemma split_once_incl (sep : char) (s : text) c :
  In c (fst (split_once sep s)) \/ In c (snd (split_once sep s)) -> In c s.
Proof.
  induction s as [|a s IH]; simpl; [tauto|].
  destruct (N.eqb a sep); simpl; [tauto|].
  destruct (split_once sep s) as [b r]. simpl in *. intuition.
Qed.

Lemma text_eqb_eq (a b : text) : text_eqb a b = true <-> a = b.
Proof.
  unfold text_eqb. destruct (list_eq_dec N.eq_dec a b); split; congruence.
Qed.

Section NormalizerFacts.
Context {db : UnicodeDB}.

Lemma recognized_role_spec (r : text) :
  recognized_role r = true <-> r = lit "user" \/ r = lit "assistant".
Proof.
  unfold recognized_role. rewrite orb_true_iff, !text_eqb_eq. tauto.
Qed.

Lemma parse_turn_no_colon (s : text) : ~ In colon s -> parse_turn s = None.
Proof.
  intros H. apply contains_false in H. unfold parse_turn. rewrite H.
  reflexivity.
Qed.

Lemma parse_turn_colon (before after : text) :
  ~ In colon before ->
  parse_turn (before ++ colon :: after)
  = if recognized_role (lower (strip before))
    then Some {| role := lower (strip before); content := strip after |}
    else None.
Proof.
  intros H. unfold parse_turn.
  assert (E : contains colon (before ++ colon :: after) = true).
  { unfold contains. apply existsb_exists. exists colon.
    split; [apply in_elt | apply N.eqb_refl]. }
  rewrite E, (split_once_first colon before after H). cbn [negb].
  destruct (recognized_role (lower (strip before))); reflexivity.
Qed.

Lemma normalize_history_fold (lines : list text) (parsed : list Turn) :
  fold_left
    (fun parsed t =>
       match parse_turn t with
       | Some item => parsed ++ [item]
       | None => parsed
       end)
    lines parsed
  = parsed ++ spec_normalize lines.
Proof.
  revert parsed. induction lines as [|l lines IH]; intros parsed; simpl.
  - rewrite app_nil_r. reflexivity.
  - rewrite IH. destruct (parse_turn l); [|reflexivity].
    rewrite <- app_assoc. reflexivity.
Qed.

Lemma normalize_history_eq_spec (lines : list text) :
  normalize_history lines = spec_normalize lines.
Proof. apply (normalize_history_fold lines []). Qed.

Lemma parse_turn_ascii (s : text) :
  is_ascii s -> parse_turn s = parse_turn (db := ascii_db) s.
Proof.
  intros H. unfold parse_turn.
  destruct (contains colon s); [|reflexivity]. cbn [negb].
  pose proof (split_once_incl colon s) as Hincl.
  destruct (split_once colon s) as [role0 content0]. cbn [fst snd] in Hincl.
  assert (H1 : is_ascii role0) by (apply (is_ascii_incl s); auto).
  assert (H2 : is_ascii content0) by (apply (is_ascii_incl s); auto).
  rewrite (strip_ascii role0 H1), (strip_ascii content0 H2).
  rewrite lower_ascii.
  - reflexivity.
  - apply (is_ascii_incl role0); [exact H1|]. apply strip_with_incl.
Qed.

Lemma spec_normalize_ascii (lines : list text) :
  Forall is_ascii lines ->
  spec_normalize lines = spec_normalize (db := ascii_db) lines.
Proof.
  induction 1 as [|l lines Hl _ IH]; [reflexivity|].
  unfold spec_normalize in *. simpl.
  rewrite (parse_turn_ascii l Hl), IH. reflexivity.
Qed.

End NormalizerFacts.

Lemma normalize_history_ascii {db : UnicodeDB} (lines : list text) :
  forallb is_asciib lines = true ->
  normalize_history lines = normalize_history (db := ascii_db) lines.
Proof.
  intros H. rewrite !normalize_history_eq_spec. apply spec_normalize_ascii.
  apply Forall_forall. intros l Hl. apply is_asciib_spec.
  rewrite forallb_forall in H. auto.
Qed.

(** C6: a line without a colon gives no turn; a line with one is split at
    its first colon, the role is the text before it stripped and then
    lowercased, the content the text after it stripped, and the turn is
    kept exactly when the role is "user" or "assistant"; the normalizer
    returns the kept turns of the lines in the order of the lines (the
    turns of a concatenation are the turns of its parts, concatenated), and
    the lines "bogus line with no colon" and "system: hi" give the empty
    history. *)
Theorem normalize_history_splits_and_filters {db : UnicodeDB} :
  (forall s, ~ In colon s -> parse_turn s = None)
  /\ (forall before after, ~ In colon before ->
        parse_turn (before ++ colon :: after)
        = if recognized_role (lower (strip before))
          then Some {| role := lower (strip before);
                       content := strip after |}
          else None)
  /\ (forall r, recognized_role r = true
                <-> r = lit "user" \/ r = lit "assistant")
  /\ (forall lines, normalize_history lines = spec_normalize lines)
  /\ (forall lines1 lines2,
        normalize_history (lines1 ++ lines2)
        = normalize_history lines1 ++ normalize_history lines2)
  /\ (forall lines t, In t (normalize_history lines) ->
        role t = lit "user" \/ role t = lit "assistant")
  /\ normalize_history [lit "bogus line with no colon"; lit "system: hi"]
     = [].
Proof.
  split; [apply parse_turn_no_colon|].
  split; [apply parse_turn_colon|].
  split; [apply recognized_role_spec|].
  split; [apply normalize_history_eq_spec|].
  split.
  { intros l1 l2. rewrite !normalize_history_eq_spec.
    unfold spec_normalize. apply flat_map_app. }
  split.
  { intros lines t. rewrite normalize_history_eq_spec.
    unfold spec_normalize. rewrite in_flat_map. intros [l [_ Hl]].
    unfold parse_turn in Hl.
    destruct (contains colon l); cbn [negb] in Hl; [|contradiction].
    destruct (split_once colon l) as [role0 content0].
    destruct (recognized_role (lower (strip role0))) eqn:E;
      cbn [negb] in Hl; [|contradiction].
    destruct Hl as [<-|[]]. apply recognized_role_spec, E. }
  rewrite normalize_history_ascii by reflexivity. reflexivity.
Qed.

Lemma normalize_history_splits_and_filters_witness :
  parse_turn (db := ascii_db) (lit "bogus line with no colon") = None
  /\ parse_turn (db := ascii_db) (lit " USER : hi: there ")
     = Some (turn "user" "hi: there").
Proof.
  pose proof (normalize_history_splits_and_filters (db := ascii_db))
    as [Hnone [Hsplit _]].
  split.
  - apply Hnone. vm_compute. intuition discriminate.
  - apply (Hsplit (lit " USER ") (lit " hi: there ")).
    vm_compute. intuition discriminate.
Defined.

(** ** The history windower: last turns *)

Lemma slice_from_negative {A : Type} (l : list A) (n : Z) :
  (0 < n)%Z ->
  slice_from (- n) l = skipn (length l - Nat.min (Z.to_nat n) (length l)) l.
Proof.
  intros Hn. unfold slice_from.
  replace (- n <? 0)%Z with true by (symmetry; apply Z.ltb_lt; lia).
  f_equal. lia.
Qed.

Lemma window_by_max_turns_pos (H : list Turn) (n : Z) :
  (0 < n)%Z ->
  window_by_max_turns H n
  = skipn (length H - Nat.min (Z.to_nat n) (length H)) H.
Proof.
  intros Hn. unfold window_by_max_turns.
  replace (n <=? 0)%Z with false by (symmetry; apply Z.leb_gt; lia).
  apply slice_from_negative, Hn.
Qed.

Lemma window_by_max_turns_nonpos (H : list Turn) (n : Z) :
  (n <= 0)%Z -> window_by_max_turns H n = [].
Proof.
  intros Hn. unfold window_by_max_turns.
  replace (n <=? 0)%Z with true by (symmetry; apply Z.leb_le; lia).
  reflexivity.
Qed.

Lemma window_by_max_turns_suffix (H : list Turn) (n : Z) :
  exists dropped, H = dropped ++ window_by_max_turns H n.
Proof.
  destruct (Z_le_gt_dec n 0) as [Hn|Hn].
  - exists H. rewrite window_by_max_turns_nonpos, app_nil_r by lia.
    reflexivity.
  - exists (firstn (length H - Nat.min (Z.to_nat n) (length H)) H).
    rewrite window_by_max_turns_pos by lia.
    symmetry. apply firstn_skipn.
Qed.

Lemma window_by_max_turns_length (H : list Turn) (n : Z) :
  (0 < n)%Z ->
  length (window_by_max_turns H n) = Nat.min (Z.to_nat n) (length H).
Proof.
  intros Hn. rewrite window_by_max_turns_pos, length_skipn by lia. lia.
Qed.

Lemma five_lines_history {db : UnicodeDB} :
  normalize_history five_lines
  = [turn "user" "a"; turn "assistant" "b"; turn "user" "c";
     turn "assistant" "d"; turn "user" "e"].
Proof. rewrite normalize_history_ascii by reflexivity. reflexivity. Qed.

(** C5: with [n <= 0] the max-turns windower returns the empty history;
    with [n > 0] it returns the last [min n (len H)] turns of [H], in
    their order: [H] is some dropped turns followed by the window, and the
    window has that length.  On the history of "user:a", "assistant:b",
    "user:c", "assistant:d", "user:e" and [n = 4] it returns turns 2 to 5
    and drops only "user:a". *)
Theorem window_by_max_turns_keeps_last {db : UnicodeDB}
  (H : list Turn) (n : Z) :
  ((n <= 0)%Z -> window_by_max_turns H n = [])
  /\ ((0 < n)%Z ->
        (exists dropped, H = dropped ++ window_by_max_turns H n)
        /\ length (window_by_max_turns H n)
           = Nat.min (Z.to_nat n) (length H))
  /\ window_by_max_turns (normalize_history five_lines) 4
     = [turn "assistant" "b"; turn "user" "c"; turn "assistant" "d";
        turn "user" "e"]
  /\ normalize_history five_lines
     = turn "user" "a" :: window_by_max_turns (normalize_history five_lines) 4.
Proof.
  split; [apply window_by_max_turns_nonpos|].
  split.
  { intros Hn. split.
    - apply window_by_max_turns_suffix.
    - apply window_by_max_turns_length, Hn. }
  rewrite five_lines_history. split; reflexivity.
Qed.

Lemma window_by_max_turns_keeps_last_witness :
  window_by_max_turns [turn "user" "a"; turn "assistant" "b"] 0 = []
  /\ length (window_by_max_turns
               [turn "user" "a"; turn "assistant" "b"; turn "user" "c"] 2)
     = 2.
Proof.
  split.
  - apply (window_by_max_turns_keeps_last (db := ascii_db)
             [turn "user" "a"; turn "assistant" "b"] 0).
    lia.
  - apply (window_by_max_turns_keeps_last (db := ascii_db)
             [turn "user" "a"; turn "assistant" "b"; turn "user" "c"] 2).
    lia.
Defined.

(** ** The history windower: token budget *)

Section BudgetFacts.
Context {db : UnicodeDB}.
Variable rt : Runtime.
Variable budget : Z.
Variable hint : option text.

Lemma line_cost_nonneg (t : Turn) : (0 <= line_cost rt hint t)%Z.
Proof. unfold line_cost. lia. Qed.

Lemma history_cost_nonneg (h : list Turn) : (0 <= history_cost rt hint h)%Z.
Proof.
  induction h as [|t h IH]; simpl; [lia|].
  pose proof (line_cost_nonneg t). lia.
Qed.

Lemma history_cost_app (h1 h2 : list Turn) :
  history_cost rt hint (h1 ++ h2)
  = (history_cost rt hint h1 + history_cost rt hint h2)%Z.
Proof. induction h1 as [|t h1 IH]; simpl; [reflexivity|]. rewrite IH. lia. Qed.

Lemma history_cost_rev (h : list Turn) :
  history_cost rt hint (rev h) = history_cost rt hint h.
Proof.
  induction h as [|t h IH]; simpl; [reflexivity|].
  rewrite history_cost_app, IH. simpl. lia.
Qed.

Lemma history_cost_in (h : list Turn) (t : Turn) :
  In t h -> (line_cost rt hint t <= history_cost rt hint h)%Z.
Proof.
  induction h as [|a h IH]; simpl; [tauto|].
  pose proof (line_cost_nonneg a). pose proof (history_cost_nonneg h).
  intros [->|Hin]; [lia|]. specialize (IH Hin). lia.
Qed.

(** What the loop does: it takes the longest prefix of [items] that keeps
    the running total within the budget, and stops at the first item that
    would overflow it. *)
Lemma budget_loop_spec (items : list Turn) :
  forall acc total,
  exists taken rest,
    items = taken ++ rest
    /\ budget_loop rt budget hint items acc total = acc ++ taken
    /\ (taken = [] \/ (total + history_cost rt hint taken <= budget)%Z)
    /\ (rest = []
        \/ exists t rest', rest = t :: rest'
             /\ (budget < total + history_cost rt hint taken
                          + line_cost rt hint t)%Z).
Proof.
  induction items as [|item items IH]; intros acc total.
  - exists [], []. cbn [budget_loop app]. rewrite app_nil_r. auto.
  - cbn [budget_loop]. fold (line_cost rt hint item).
    destruct (total + line_cost rt hint item >? budget)%Z eqn:E.
    + exists [], (item :: items). rewrite app_nil_r.
      repeat split; auto. right. exists item, items. split; [reflexivity|].
      simpl. apply Z.gtb_lt in E. lia.
    + destruct (IH (acc ++ [item]) (total + line_cost rt hint item)%Z)
        as [taken [rest [Hi [Hl [Hb Hs]]]]].
      exists (item :: taken), rest.
      assert (Hle : (total + line_cost rt hint item <= budget)%Z).
      { rewrite Z.gtb_ltb in E. apply Z.ltb_ge in E. exact E. }
      split; [simpl; congruence|].
      split; [rewrite Hl, <- app_assoc; reflexivity|].
      split.
      * right. simpl. destruct Hb as [->|Hb]; simpl; lia.
      * destruct Hs as [->|[t [rest' [-> Hs]]]]; [left; reflexivity|].
        right. exists t, rest'. split; [reflexivity|]. simpl. lia.
Qed.

Lemma budget_loop_all (items : list Turn) :
  forall acc total,
    (total + history_cost rt hint items <= budget)%Z ->
    budget_loop rt budget hint items acc total = acc ++ items.
Proof.
  induction items as [|item items IH]; intros acc total Hle.
  - simpl. rewrite app_nil_r. reflexivity.
  - cbn [budget_loop]. fold (line_cost rt hint item). simpl in Hle.
    pose proof (history_cost_nonneg items).
    replace (total + line_cost rt hint item >? budget)%Z with false
      by (symmetry; rewrite Z.gtb_ltb; apply Z.ltb_ge; lia).
    rewrite IH by lia. rewrite <- app_assoc. reflexivity.
Qed.

(** The window, seen from the history: a suffix, within the budget unless
    empty, with the turn before it (if any) overflowing the budget. *)
Lemma window_by_token_budget_spec (H : list Turn) :
  exists dropped,
    H = dropped ++ window_by_token_budget rt H budget hint
    /\ (window_by_token_budget rt H budget hint = []
        \/ (history_cost rt hint (window_by_token_budget rt H budget hint)
            <= budget)%Z)
    /\ (dropped = []
        \/ exists older t, dropped = older ++ [t]
             /\ (budget
                 < history_cost rt hint
                     (window_by_token_budget rt H budget hint)
                   + line_cost rt hint t)%Z).
Proof.
  unfold window_by_token_budget.
  destruct (budget_loop_spec (rev H) [] 0%Z)
    as [taken [rest [Hi [Hl [Hb Hs]]]]].
  rewrite Hl. cbn [app]. exists (rev rest).
  split.
  { rewrite <- rev_app_distr, <- Hi, rev_involutive. reflexivity. }
  rewrite history_cost_rev. split.
  - destruct Hb as [->|Hb]; [left; reflexivity | right; lia].
  - destruct Hs as [->|[t [rest' [-> Hs]]]]; [left; reflexivity|].
    right. exists (rev rest'), t. split; [reflexivity | lia].
Qed.

Lemma window_by_token_budget_fixed (H : list Turn) :
  window_by_token_budget rt (window_by_token_budget rt H budget hint)
    budget hint
  = window_by_token_budget rt H budget hint.
Proof.
  unfold window_by_token_budget.
  destruct (budget_loop_spec (rev H) [] 0%Z)
    as [taken [rest [_ [Hl [Hb _]]]]].
  rewrite Hl. cbn [app]. rewrite rev_involutive.
  destruct Hb as [->|Hb]; [reflexivity|].
  rewrite budget_loop_all by exact Hb. reflexivity.
Qed.

(** While the turns fit, the walk goes on: a suffix of the history that
    fits the budget lies wholly inside the window. *)
Lemma window_by_token_budget_covers (H older S : list Turn) :
  H = older ++ S ->
  (history_cost rt hint S <= budget)%Z ->
  exists extra, window_by_token_budget rt H budget hint = extra ++ S.
Proof.
  intros HS Hcost.
  destruct (window_by_token_budget_spec H) as [dropped [Hsuf [_ Hstop]]].
  set (W := window_by_token_budget rt H budget hint) in *.
  assert (E : older ++ S = dropped ++ W) by congruence.
  apply app_eq_app in E. destruct E as [l [[E1 E2]|[E1 E2]]].
  - exists l. exact E2.
  - destruct Hstop as [Hd|[old' [t [Hd Hover]]]].
    + rewrite Hd in E1. symmetry in E1. apply app_eq_nil in E1.
      destruct E1 as [_ ->]. exists []. rewrite E2. reflexivity.
    + destruct l as [|x l] using rev_ind.
      * exists []. rewrite E2. reflexivity.
      * exfalso. clear IHl. rewrite Hd, app_assoc in E1.
        apply app_inj_tail in E1. destruct E1 as [_ <-].
        rewrite E2, !history_cost_app in Hcost. simpl in Hcost.
        pose proof (history_cost_nonneg l). lia.
Qed.

(** Where a turn would overflow, the walk stops: if the turns after [t]
    together with [t] exceed the budget, neither [t] nor any turn before
    it is in the window, whatever those older turns cost. *)
Lemma window_by_token_budget_stops (H older S : list Turn) (t : Turn) :
  H = older ++ t :: S ->
  (budget < history_cost rt hint S + line_cost rt hint t)%Z ->
  exists extra, S = extra ++ window_by_token_budget rt H budget hint.
Proof.
  intros HS Hover.
  destruct (window_by_token_budget_spec H) as [dropped [Hsuf [Hfit _]]].
  set (W := window_by_token_budget rt H budget hint) in *.
  assert (Hbig : forall l, W <> l ++ t :: S).
  { intros l E. destruct Hfit as [Hnil|Hfit].
    - rewrite Hnil in E. destruct l; discriminate.
    - rewrite E, history_cost_app in Hfit. simpl in Hfit.
      pose proof (history_cost_nonneg l). lia. }
  assert (E : older ++ t :: S = dropped ++ W) by congruence.
  apply app_eq_app in E. destruct E as [l [[E1 E2]|[E1 E2]]].
  - exfalso. apply (Hbig l E2).
  - destruct l as [|x l].
    + exfalso. apply (Hbig []). symmetry. exact E2.
    + injection E2 as _ E2. exists l. exact E2.
Qed.

End BudgetFacts.

(** A rendered line starts with the symbol "-", so it is never empty and
    the heuristic finds at least one token in it. *)
Lemma render_line_head {db : UnicodeDB} (t : Turn) :
  exists rest, render_line t = 45%N :: rest.
Proof. unfold render_line. eexists. reflexivity. Qed.

Lemma render_line_heuristic_pos {db : UnicodeDB} (t : Turn) :
  1 <= _heuristic_count (render_line t).
Proof.
  destruct (render_line_head t) as [rest ->].
  apply heuristic_count_symbol_pos.
  - rewrite isword_ascii by reflexivity. reflexivity.
  - rewrite isspace_ascii by reflexivity. reflexivity.
Qed.

Lemma model_encoding_some tk hint enc :
  model_encoding tk hint = Some enc ->
  exists m, encoding_for_model tk m = Ok enc.
Proof.
  unfold model_encoding. destruct hint as [m|]; [|discriminate].
  destruct (truthy_str (Some m)); [|discriminate].
  destruct (encoding_for_model tk m) as [e|] eqn:E; [|discriminate].
  intros H; injection H as ->. exists m. exact E.
Qed.

Lemma line_cost_pos {db : UnicodeDB} (rt : Runtime) (hint : option text)
  (t : Turn) :
  tiktoken_nonempty rt -> (1 <= line_cost rt hint t)%Z.
Proof.
  intros Hne. pose proof (render_line_heuristic_pos t) as Hh.
  unfold line_cost, Demo.count_tokens.
  destruct (tok_mod_loaded rt) eqn:El; cbn [negb];
    [|unfold _heuristic_count in Hh; lia].
  unfold Tokenizer.count_tokens.
  destruct (tiktoken_count (tiktoken rt) (render_line t) hint) as [n|e] eqn:E;
    [|lia].
  unfold tiktoken_count in E.
  destruct (tiktoken rt) as [tk|] eqn:Etk; cbn [import_tiktoken bind] in E;
    [|discriminate].
  assert (Henc : exists enc toks,
             encodes_nonempty enc /\ encode enc (render_line t) = Ok toks
             /\ n = length toks).
  { destruct (model_encoding tk hint) as [enc|] eqn:Em.
    - destruct (model_encoding_some tk hint enc Em) as [m Hm].
      cbn [bind] in E.
      destruct (encode enc (render_line t)) as [toks|] eqn:Et;
        cbn [bind] in E; [|discriminate].
      exists enc, toks. injection E as <-.
      split; [|auto]. apply (Hne tk m enc); auto.
    - destruct (get_encoding tk (lit "cl100k_base")) as [enc|] eqn:Eg;
        cbn [bind] in E; [|discriminate].
      destruct (encode enc (render_line t)) as [toks|] eqn:Et;
        cbn [bind] in E; [|discriminate].
      exists enc, toks. injection E as <-.
      split; [|auto]. apply (Hne tk (lit "cl100k_base") enc); auto. }
  destruct Henc as [enc [toks [Hnon [Ht ->]]]].
  destruct (render_line_head t) as [rest Hr].
  assert (toks <> []) by (apply (Hnon _ _ Ht); rewrite Hr; discriminate).
  destruct toks; [contradiction | simpl; lia].
Qed.

(** C1, as the claim has it, fails for a negative budget: the window is
    then empty, its cost is 0, and 0 is not at most -1. *)
Lemma negative_budget_not_respected :
  window_by_token_budget (db := ascii_db) no_tiktoken
    [turn "user" "hi"] (-1) None = []
  /\ ~ (history_cost (db := ascii_db) no_tiktoken None
          (window_by_token_budget (db := ascii_db) no_tiktoken
             [turn "user" "hi"] (-1) None)
        <= -1)%Z.
Proof.
  split; [reflexivity|]. vm_compute. intros H. apply H. reflexivity.
Qed.

(** C1, amended: for every history [H], every budget [b >= 0] and every
    model hint, the costs of the turns of the window (the estimator's
    count on each rendered line) sum to at most [b]; the window consists
    of whole turns of [H] (it is a suffix of [H]), so a turn that costs
    more than [b] is not in it, and a history of one such turn gives the
    empty window; with [b = 0] the window is empty (the heuristic finds a
    token in every rendered line, and [tiktoken], when it is used, is
    taken to encode no non-empty text as zero tokens). *)
Theorem window_by_token_budget_within_budget {db : UnicodeDB}
  (rt : Runtime) (H : list Turn) (b : Z) (hint : option text) :
  (0 <= b)%Z ->
  (history_cost rt hint (window_by_token_budget rt H b hint) <= b)%Z
  /\ (exists dropped, H = dropped ++ window_by_token_budget rt H b hint)
  /\ (forall t, In t (window_by_token_budget rt H b hint) ->
        In t H /\ (line_cost rt hint t <= b)%Z)
  /\ (forall t, H = [t] -> (b < line_cost rt hint t)%Z ->
        window_by_token_budget rt H b hint = [])
  /\ (b = 0%Z -> tiktoken_nonempty rt ->
        window_by_token_budget rt H b hint = []).
Proof.
  intros Hb.
  destruct (window_by_token_budget_spec rt b hint H)
    as [dropped [Hsuf [Hcost _]]].
  assert (Hle : (history_cost rt hint (window_by_token_budget rt H b hint)
                 <= b)%Z).
  { destruct Hcost as [->|Hcost]; [simpl; lia | exact Hcost]. }
  assert (Hin : forall t, In t (window_by_token_budget rt H b hint) ->
                  In t H /\ (line_cost rt hint t <= b)%Z).
  { intros t Ht. split.
    - rewrite Hsuf. apply in_or_app. right. exact Ht.
    - pose proof (history_cost_in rt hint _ t Ht). lia. }
  split; [exact Hle|]. split; [exists dropped; exact Hsuf|].
  split; [exact Hin|]. split.
  - intros t Ht Hover.
    destruct (window_by_token_budget rt H b hint) as [|t' W] eqn:EW;
      [reflexivity|].
    destruct (Hin t') as [Hin' Hle']; [left; reflexivity|].
    rewrite Ht in Hin'. destruct Hin' as [<-|[]]. lia.
  - intros -> Hne.
    destruct (window_by_token_budget rt H 0 hint) as [|t' W] eqn:EW;
      [reflexivity|].
    destruct (Hin t') as [_ Hle']; [left; reflexivity|].
    pose proof (line_cost_pos rt hint t' Hne). lia.
Qed.

Lemma window_by_token_budget_within_budget_witness :
  (history_cost (db := ascii_db) no_tiktoken None
     (window_by_token_budget (db := ascii_db) no_tiktoken
        (normalize_history (db := ascii_db) five_lines) 9 None) <= 9)%Z
  /\ window_by_token_budget (db := ascii_db) no_tiktoken
       (normalize_history (db := ascii_db) five_lines) 0 None = [].
Proof.
  split.
  - apply (window_by_token_budget_within_budget (db := ascii_db)
             no_tiktoken (normalize_history (db := ascii_db) five_lines)
             9 None).
    lia.
  - apply (window_by_token_budget_within_budget (db := ascii_db)
             no_tiktoken (normalize_history (db := ascii_db) five_lines)
             0 None); [lia | reflexivity |].
    intros tk name enc _ Htk. discriminate Htk.
Defined.

(** C2: for both strategies the window is a contiguous suffix of the
    history, in the history's order: the history is some dropped turns
    followed by the window.  For a token budget the walk from the most
    recent turn stops at the first turn that would overflow, and only
    there.  It stops there: the window, unless empty, is within the
    budget, and if a turn [t] together with the turns after it exceeds
    the budget, then neither [t] nor any turn before it is in the window,
    however cheap the older turns are (nothing is skipped over).  It
    stops only there: the turn just before the window, if there is one,
    does not fit on top of the window, and every suffix of the history
    that fits the budget lies inside the window.  The accumulator of the
    walk holds the taken turns most recent first, a prefix of the
    reversed history, and the window is its reversal.  With the heuristic
    estimator, budget 9 and turns costing 4, 9 and 4, only the last turn
    is returned, though the first and the last together would fit. *)
Theorem windows_are_suffixes_in_order {db : UnicodeDB}
  (rt : Runtime) (H : list Turn) :
  (forall n, exists dropped, H = dropped ++ window_by_max_turns H n)
  /\ (forall b hint,
        exists dropped,
          H = dropped ++ window_by_token_budget rt H b hint
          /\ (window_by_token_budget rt H b hint = []
              \/ (history_cost rt hint (window_by_token_budget rt H b hint)
                  <= b)%Z)
          /\ (dropped = []
              \/ exists older t, dropped = older ++ [t]
                   /\ (b < history_cost rt hint
                              (window_by_token_budget rt H b hint)
                            + line_cost rt hint t)%Z))
  /\ (forall b hint older t S,
        H = older ++ t :: S ->
        (b < history_cost rt hint S + line_cost rt hint t)%Z ->
        exists extra, S = extra ++ window_by_token_budget rt H b hint)
  /\ (forall b hint older S,
        H = older ++ S ->
        (history_cost rt hint S <= b)%Z ->
        exists extra, window_by_token_budget rt H b hint = extra ++ S)
  /\ (forall b hint,
        window_by_token_budget rt H b hint
        = rev (budget_loop rt b hint (rev H) [] 0%Z)
        /\ exists rest,
             rev H = budget_loop rt b hint (rev H) [] 0%Z ++ rest)
  /\ window_by_token_budget (db := ascii_db) no_tiktoken uneven_history 9
       None
     = [turn "user" "c"].
Proof.
  split; [intros n; apply window_by_max_turns_suffix|].
  split; [intros b hint; apply window_by_token_budget_spec|].
  split.
  { intros b hint older t S. apply window_by_token_budget_stops. }
  split.
  { intros b hint older S. apply window_by_token_budget_covers. }
  split; [|reflexivity].
  intros b hint. split; [reflexivity|].
  destruct (budget_loop_spec rt b hint (rev H) [] 0%Z)
    as [taken [rest [Hi [Hl _]]]].
  exists rest. rewrite Hl. exact Hi.
Qed.

Lemma windows_are_suffixes_in_order_witness :
  (exists extra,
     [turn "user" "c"]
     = extra
       ++ window_by_token_budget (db := ascii_db) no_tiktoken uneven_history
            9 None)
  /\ (exists extra,
        window_by_token_budget (db := ascii_db) no_tiktoken uneven_history
          9 None
        = extra ++ [turn "user" "c"]).
Proof.
  destruct (windows_are_suffixes_in_order (db := ascii_db) no_tiktoken
              uneven_history) as [_ [_ [Hstop [Hcover _]]]].
  split.
  - apply (Hstop 9%Z None [turn "user" "a"]
             (turn "assistant" "b b b b b b") [turn "user" "c"]).
    + reflexivity.
    + vm_compute. reflexivity.
  - apply (Hcover 9%Z None
             [turn "user" "a"; turn "assistant" "b b b b b b"]
             [turn "user" "c"]).
    + reflexivity.
    + vm_compute. discriminate.
Defined.

(** C3: windowing a window again with the same constraint changes
    nothing, for a max-turns constraint and for a token budget with the
    same hint. *)
Theorem windowing_is_idempotent {db : UnicodeDB}
  (rt : Runtime) (H : list Turn) :
  (forall n,
     window_by_max_turns (window_by_max_turns H n) n
     = window_by_max_turns H n)
  /\ (forall b hint,
        window_by_token_budget rt (window_by_token_budget rt H b hint) b hint
        = window_by_token_budget rt H b hint).
Proof.
  split.
  - intros n. destruct (Z_le_gt_dec n 0) as [Hn|Hn].
    + rewrite !window_by_max_turns_nonpos by lia. reflexivity.
    + rewrite (window_by_max_turns_pos (window_by_max_turns H n)) by lia.
      rewrite window_by_max_turns_length by lia.
      replace (Nat.min (Z.to_nat n) (length H)
               - Nat.min (Z.to_nat n) (Nat.min (Z.to_nat n) (length H)))
        with 0 by lia.
      reflexivity.
  - intros b hint. apply window_by_token_budget_fixed.
Qed.

(** C4, as the claim has it, fails for a token budget that is not
    positive: with [--token-budget 0] the script takes the max-turns
    window (here the whole one-turn history), which is not the
    token-budget window (empty). *)
Lemma zero_token_budget_selects_max_turns :
  main_window (db := ascii_db) no_tiktoken [turn "user" "a"] 6 (Some 0%Z) None
  = ([turn "user" "a"], max_turns_method 6)
  /\ window_by_token_budget (db := ascii_db) no_tiktoken [turn "user" "a"]
       0 None = []
  /\ ~ (forall rt H max_turns b hint,
          main_window (db := ascii_db) rt H max_turns (Some b) hint
          = (window_by_token_budget (db := ascii_db) rt H b hint,
             token_budget_method b)).
Proof.
  repeat split; try reflexivity.
  intros Hall.
  specialize (Hall no_tiktoken [turn "user" "a"] 6%Z 0%Z None).
  vm_compute in Hall. discriminate.
Qed.

(** C4, amended: whenever a positive token budget is supplied, the
    script takes the token-budget window and ignores the max-turns value,
    whatever it is; a token budget that is zero or negative is itself
    ignored, as an absent one is, and the max-turns window is taken.  The
    choice is a total function: no combination is rejected. *)
Theorem positive_token_budget_takes_precedence {db : UnicodeDB}
  (rt : Runtime) (H : list Turn) (max_turns b : Z) (hint : option text) :
  ((0 < b)%Z ->
     main_window rt H max_turns (Some b) hint
     = (window_by_token_budget rt H b hint, token_budget_method b))
  /\ ((b <= 0)%Z ->
        main_window rt H max_turns (Some b) hint
        = (window_by_max_turns H max_turns, max_turns_method max_turns))
  /\ main_window rt H max_turns None hint
     = (window_by_max_turns H max_turns, max_turns_method max_turns).
Proof.
  unfold main_window, truthy_int.
  split; [|split; [|reflexivity]]; intros Hb.
  - replace (b =? 0)%Z with false by (symmetry; apply Z.eqb_neq; lia).
    replace (b >? 0)%Z with true
      by (symmetry; rewrite Z.gtb_ltb; apply Z.ltb_lt; lia).
    reflexivity.
  - replace (b >? 0)%Z with false
      by (symmetry; rewrite Z.gtb_ltb; apply Z.ltb_ge; lia).
    rewrite andb_false_r. reflexivity.
Qed.

Lemma positive_token_budget_takes_precedence_witness :
  main_window (db := ascii_db) no_tiktoken
    (normalize_history (db := ascii_db) five_lines) 4 (Some 9%Z) None
  = (window_by_token_budget (db := ascii_db) no_tiktoken
       (normalize_history (db := ascii_db) five_lines) 9 None,
     token_budget_method 9)
  /\ main_window (db := ascii_db) no_tiktoken
       (normalize_history (db := ascii_db) five_lines) 4 (Some 0%Z) None
     = (window_by_max_turns (normalize_history (db := ascii_db) five_lines) 4,
        max_turns_method 4).
Proof.
  split.
  - destruct (positive_token_budget_takes_precedence (db := ascii_db)
                no_tiktoken (normalize_history (db := ascii_db) five_lines)
                4 9 None) as [Hpos _].
    apply Hpos. lia.
  - destruct (positive_token_budget_takes_precedence (db := ascii_db)
                no_tiktoken (normalize_history (db := ascii_db) five_lines)
                4 0 None) as [_ [Hnonpos _]].
    apply Hnonpos. lia.
Defined.

(** ** More on stripping and on what [build_prompt] returns *)

Lemma lstrip_with_fixed sp (s : text) :
  (forall c rest, s = c :: rest -> sp c = false) -> lstrip_with sp s = s.
Proof.
  destruct s as [|c s]; [reflexivity|]. intros H. simpl.
  rewrite (H c s eq_refl). reflexivity.
Qed.

Lemma rstrip_with_fixed sp (s : text) :
  (forall front c, s = front ++ [c] -> sp c = false) -> rstrip_with sp s = s.
Proof.
  intros H. unfold rstrip_with. rewrite lstrip_with_fixed.
  - apply rev_involutive.
  - intros c rest E. apply (H (rev rest) c).
    rewrite <- (rev_involutive s), E. reflexivity.
Qed.

Lemma strip_with_fixed sp (s : text) :
  (forall c rest, s = c :: rest -> sp c = false) ->
  (forall front c, s = front ++ [c] -> sp c = false) ->
  strip_with sp s = s.
Proof.
  intros Hh Hl. unfold strip_with.
  rewrite (lstrip_with_fixed sp s Hh). apply rstrip_with_fixed, Hl.
Qed.

Lemma strip_with_idempotent sp (s : text) :
  strip_with sp (strip_with sp s) = strip_with sp s.
Proof.
  apply strip_with_fixed.
  - intros c rest. apply strip_with_head.
  - intros front c. apply strip_with_last.
Qed.

Lemma strip_with_decompose sp (s : text) :
  exists lead trail,
    s = lead ++ strip_with sp s ++ trail
    /\ forallb sp lead = true /\ forallb sp trail = true.
Proof.
  destruct (lstrip_with_suffix sp s) as [p [Hp Hpa]].
  destruct (rstrip_with_prefix sp (lstrip_with sp s)) as [q [Hq Hqa]].
  exists p, q. unfold strip_with. rewrite <- Hq. auto.
Qed.

Lemma strip_with_space_head sp c (s : text) :
  sp c = true -> strip_with sp (c :: s) = strip_with sp s.
Proof. intros H. unfold strip_with. simpl. rewrite H. reflexivity. Qed.

Lemma strip_is_stripped {db : UnicodeDB} (s : text) : stripped (strip s).
Proof.
  split.
  - intros c rest. apply strip_with_head.
  - intros front c. apply strip_with_last.
Qed.

Lemma build_prompt_unreadable {db : UnicodeDB} (path : text) (w : World)
  (user_message : text) (e : exn) :
  files w path = Some (Raise e) ->
  build_prompt path user_message w
  = (Raise e, emit (ReadText path) (emit (PathExists path) w)).
Proof.
  intros H. unfold build_prompt, iobind.
  rewrite (load_system_prompt_unreadable path w e H). reflexivity.
Qed.

Lemma build_prompt_present {db : UnicodeDB} (path : text) (w : World)
  (user_message resource : text) :
  files w path = Some (Ok resource) ->
  build_prompt path user_message w
  = (Ok {| system := strip resource; user := strip user_message |},
     emit (ReadText path) (emit (PathExists path) w)).
Proof.
  intros H. unfold build_prompt, iobind.
  rewrite (load_system_prompt_present path w resource H). reflexivity.
Qed.

Lemma build_prompt_absent {db : UnicodeDB} (path : text) (w : World)
  (user_message : text) :
  files w path = None ->
  build_prompt path user_message w
  = (Raise (FileNotFoundError (lit "Missing system prompt at " ++ path)),
     emit (PathExists path) w).
Proof.
  intros H. unfold build_prompt, iobind.
  rewrite (load_system_prompt_missing path w H). reflexivity.
Qed.

(** X1: whenever [build_prompt] succeeds, the [user] field is the user
    message with white space removed at its two ends and nothing else
    changed: the message is some white space, then the field, then some
    white space, and the field neither starts nor ends with white space. *)
Theorem build_prompt_user_is_trimmed_message {db : UnicodeDB}
  (path : text) (w w' : World) (user_message : text) (parts : PromptParts) :
  build_prompt path user_message w = (Ok parts, w') ->
  (exists lead trail,
     user_message = lead ++ user parts ++ trail
     /\ forallb isspace lead = true /\ forallb isspace trail = true)
  /\ stripped (user parts).
Proof.
  intros H. destruct (files w path) as [[r|e]|] eqn:E.
  - rewrite (build_prompt_present path w user_message r E) in H.
    injection H as <- _. cbn [user]. split.
    + apply strip_with_decompose.
    + apply strip_is_stripped.
  - rewrite (build_prompt_unreadable path w user_message e E) in H.
    discriminate.
  - rewrite (build_prompt_absent path w user_message E) in H. discriminate.
Qed.

Lemma build_prompt_user_is_trimmed_message_witness :
  exists lead trail,
    lit " What is BFS? " = lead ++ lit "What is BFS?" ++ trail
    /\ forallb (isspace (UnicodeDB := ascii_db)) lead = true
    /\ forallb (isspace (UnicodeDB := ascii_db)) trail = true.
Proof.
  exact (proj1 (build_prompt_user_is_trimmed_message (db := ascii_db)
                  (lit "system_prompt.md") prompt_world _
                  (lit " What is BFS? ")
                  {| system := lit "You are a mentor.";
                     user := lit "What is BFS?" |} eq_refl)).
Defined.

(** X2: [build_prompt] is repeatable and its normalization of the message
    is idempotent: after a successful call, a second call on the [user]
    field of the result, in the world the first call left, returns the
    very same [PromptParts]. *)
Theorem build_prompt_again_on_user_field {db : UnicodeDB}
  (path : text) (w w' : World) (user_message : text) (parts : PromptParts) :
  build_prompt path user_message w = (Ok parts, w') ->
  exists w'', build_prompt path (user parts) w' = (Ok parts, w'').
Proof.
  intros H. destruct (files w path) as [[r|e]|] eqn:E.
  - rewrite (build_prompt_present path w user_message r E) in H.
    injection H as <- <-. cbn [user].
    eexists. rewrite (build_prompt_present path _ _ r) by exact E.
    unfold strip. rewrite strip_with_idempotent. reflexivity.
  - rewrite (build_prompt_unreadable path w user_message e E) in H.
    discriminate.
  - rewrite (build_prompt_absent path w user_message E) in H. discriminate.
Qed.

Lemma build_prompt_again_on_user_field_witness :
  exists w'',
    build_prompt (db := ascii_db) (lit "system_prompt.md")
      (lit "What is BFS?")
      (emit (ReadText (lit "system_prompt.md"))
         (emit (PathExists (lit "system_prompt.md")) prompt_world))
    = (Ok {| system := lit "You are a mentor."; user := lit "What is BFS?" |},
       w'').
Proof.
  exact (build_prompt_again_on_user_field (db := ascii_db)
           (lit "system_prompt.md") prompt_world _ (lit " What is BFS? ")
           {| system := lit "You are a mentor."; user := lit "What is BFS?" |}
           eq_refl).
Defined.

(** ** More on the heuristic count *)

Section CountFacts.
Context {db : UnicodeDB}.

Lemma lone_symbols_app (a b : text) :
  lone_symbols isword isspace (a ++ b)
  = lone_symbols isword isspace a + lone_symbols isword isspace b.
Proof. unfold lone_symbols. rewrite filter_app, length_app. reflexivity. Qed.

Lemma word_runs_app (inside : bool) (a b : text) :
  word_runs isword inside (a ++ b)
  = word_runs isword inside a
    + word_runs isword (ends_inside isword inside a) b.
Proof.
  revert inside. induction a as [|c a IH]; intros inside; simpl.
  - reflexivity.
  - rewrite IH. unfold ends_inside. simpl. lia.
Qed.

Lemma word_runs_inside_bounds (s : text) :
  word_runs isword true s <= word_runs isword false s
  /\ word_runs isword false s <= S (word_runs isword true s).
Proof.
  destruct s as [|c s]; simpl; [lia|].
  destruct (isword c); simpl; lia.
Qed.

Lemma spec_count_le_length (inside : bool) (s : text) :
  word_runs isword inside s + lone_symbols isword isspace s <= length s.
Proof.
  unfold lone_symbols. revert inside.
  induction s as [|c s IH]; intros inside; simpl; [lia|].
  specialize (IH (isword c)).
  destruct (isword c), inside, (isspace c); simpl; lia.
Qed.

Lemma spec_count_zero (s : text) :
  word_runs isword false s + lone_symbols isword isspace s = 0
  <-> forallb plain_space s = true.
Proof.
  unfold lone_symbols, plain_space.
  induction s as [|c s IH]; simpl; [tauto|].
  destruct (isword c), (isspace c); simpl; try exact IH;
    (split; [lia | discriminate]).
Qed.

Lemma word_runs_plain_space (inside : bool) (s : text) :
  forallb plain_space s = true ->
  word_runs isword inside s = 0 /\ lone_symbols isword isspace s = 0
  /\ (s <> [] -> ends_inside isword inside s = false).
Proof.
  unfold lone_symbols, plain_space, ends_inside. revert inside.
  induction s as [|c s IH]; intros inside H; simpl.
  - repeat split. intros E; contradiction.
  - simpl in H. apply andb_true_iff in H. destruct H as [Hc Hs].
    apply andb_true_iff in Hc. destruct Hc as [Hsp Hw].
    apply negb_true_iff in Hw. rewrite Hw, Hsp. simpl.
    destruct (IH false Hs) as [H1 [H2 H3]].
    repeat split; auto. intros _.
    destruct s as [|d s]; [reflexivity|]. apply H3. discriminate.
Qed.

Lemma heuristic_count_app_space (a b : text) (sep : char) :
  plain_space sep = true ->
  _heuristic_count (a ++ sep :: b) = _heuristic_count a + _heuristic_count b.
Proof.
  intros H. unfold plain_space in H. apply andb_true_iff in H.
  destruct H as [Hsp Hw]. apply negb_true_iff in Hw.
  rewrite !heuristic_count_eq_spec. unfold spec_heuristic_count.
  rewrite word_runs_app, lone_symbols_app. simpl.
  unfold lone_symbols at 2. simpl. rewrite Hw, Hsp. simpl.
  fold (lone_symbols isword isspace b). lia.
Qed.

Lemma heuristic_count_lead_space (p s : text) :
  forallb plain_space p = true ->
  _heuristic_count (p ++ s) = _heuristic_count s.
Proof.
  intros H. rewrite !heuristic_count_eq_spec. unfold spec_heuristic_count.
  rewrite word_runs_app, lone_symbols_app.
  destruct (word_runs_plain_space false p H) as [H1 [H2 H3]].
  rewrite H1, H2. destruct p as [|c p]; [reflexivity|].
  rewrite H3 by discriminate. reflexivity.
Qed.

Lemma heuristic_count_trail_space (s q : text) :
  forallb plain_space q = true ->
  _heuristic_count (s ++ q) = _heuristic_count s.
Proof.
  intros H. rewrite !heuristic_count_eq_spec. unfold spec_heuristic_count.
  rewrite word_runs_app, lone_symbols_app.
  destruct (word_runs_plain_space (ends_inside isword false s) q H)
    as [H1 [H2 _]].
  rewrite H1, H2. lia.
Qed.

End CountFacts.

(** X3: the heuristic never counts more tokens than the text has
    characters. *)
Theorem heuristic_count_at_most_length {db : UnicodeDB} (s : text) :
  _heuristic_count s <= length s.
Proof.
  rewrite heuristic_count_eq_spec. apply spec_count_le_length.
Qed.

(** X4: the heuristic counts no token exactly in the texts made of white
    space only (white-space characters that are not word characters), the
    empty text among them. *)
Theorem heuristic_count_zero_iff_blank {db : UnicodeDB} (s : text) :
  _heuristic_count s = 0 <-> forallb plain_space s = true.
Proof.
  rewrite heuristic_count_eq_spec. apply spec_count_zero.
Qed.

Lemma heuristic_count_zero_iff_blank_witness :
  _heuristic_count (db := ascii_db) (lit "  ") = 0
  /\ forallb (plain_space (db := ascii_db)) [] = true.
Proof.
  split.
  - apply (proj2 (heuristic_count_zero_iff_blank (db := ascii_db) (lit "  "))).
    reflexivity.
  - apply (proj1 (heuristic_count_zero_iff_blank (db := ascii_db) [])).
    reflexivity.
Defined.

(** X5: white space separates tokens: the count of two texts joined by a
    white-space character is the sum of their counts. *)
Theorem heuristic_count_additive_across_space {db : UnicodeDB}
  (a b : text) (sep : char) :
  plain_space sep = true ->
  _heuristic_count (a ++ sep :: b) = _heuristic_count a + _heuristic_count b.
Proof. apply heuristic_count_app_space. Qed.

Lemma heuristic_count_additive_across_space_witness :
  _heuristic_count (db := ascii_db) (lit "Hello, world!" ++ 32%N :: lit "ok")
  = _heuristic_count (db := ascii_db) (lit "Hello, world!")
    + _heuristic_count (db := ascii_db) (lit "ok").
Proof.
  apply (heuristic_count_additive_across_space (db := ascii_db)
           (lit "Hello, world!") (lit "ok") 32%N).
  reflexivity.
Defined.

(** X6: putting two texts together without a separator loses at most one
    token (a word run at the end of the first may merge with one at the
    start of the second) and never adds one. *)
Theorem heuristic_count_concat_bounds {db : UnicodeDB} (a b : text) :
  _heuristic_count (a ++ b) <= _heuristic_count a + _heuristic_count b
  /\ _heuristic_count a + _heuristic_count b <= S (_heuristic_count (a ++ b)).
Proof.
  rewrite !heuristic_count_eq_spec. unfold spec_heuristic_count.
  rewrite word_runs_app, lone_symbols_app.
  pose proof (word_runs_inside_bounds b) as [H1 H2].
  destruct (ends_inside isword false a); lia.
Qed.

(** X7: stripping a text does not change its heuristic count, as long as
    the white-space characters of the text are not word characters (none
    is, in the Unicode tables). *)
Theorem heuristic_count_strip {db : UnicodeDB} (s : text) :
  (forall c, In c s -> isspace c = true -> isword c = false) ->
  _heuristic_count (strip s) = _heuristic_count s.
Proof.
  intros H.
  destruct (strip_with_decompose isspace s) as [p [q [Hs [Hp Hq]]]].
  fold (strip s) in Hs.
  assert (Hplain : forall l, (forall c, In c l -> In c s) ->
                     forallb isspace l = true ->
                     forallb plain_space l = true).
  { intros l Hl Hall. apply forallb_forall. intros c Hc.
    rewrite forallb_forall in Hall. unfold plain_space.
    rewrite (Hall c Hc), (H c (Hl c Hc) (Hall c Hc)). reflexivity. }
  rewrite Hs at 2.
  rewrite heuristic_count_lead_space, heuristic_count_trail_space.
  - reflexivity.
  - apply Hplain; [|exact Hq]. intros c Hc. rewrite Hs.
    apply in_or_app. right. apply in_or_app. right. exact Hc.
  - apply Hplain; [|exact Hp]. intros c Hc. rewrite Hs.
    apply in_or_app. left. exact Hc.
Qed.

Lemma heuristic_count_strip_witness :
  _heuristic_count (db := ascii_db) (strip (db := ascii_db) (lit " a b "))
  = _heuristic_count (db := ascii_db) (lit " a b ").
Proof.
  apply (heuristic_count_strip (db := ascii_db) (lit " a b ")).
  intros c Hc. vm_compute in Hc.
  destruct Hc as [<-|[<-|[<-|[<-|[<-|[]]]]]]; vm_compute; congruence.
Defined.

(** ** More on the windower *)

(** X8: the max-turns window grows with the limit: for [n <= m] the
    window for [n] is a suffix of the window for [m], so raising the limit
    never drops a turn that was included. *)
Theorem window_by_max_turns_monotone (H : list Turn) (n m : Z) :
  (n <= m)%Z ->
  exists extra, window_by_max_turns H m = extra ++ window_by_max_turns H n.
Proof.
  intros Hnm. destruct (Z_le_gt_dec n 0) as [Hn|Hn].
  - exists (window_by_max_turns H m).
    rewrite (window_by_max_turns_nonpos H n Hn), app_nil_r. reflexivity.
  - rewrite !window_by_max_turns_pos by lia.
    set (a := length H - Nat.min (Z.to_nat m) (length H)).
    set (b := length H - Nat.min (Z.to_nat n) (length H)).
    exists (firstn (b - a) (skipn a H)).
    replace b with ((b - a) + a) at 2 by (unfold a, b; lia).
    rewrite <- skipn_skipn. symmetry. apply firstn_skipn.
Qed.

Lemma window_by_max_turns_monotone_witness :
  exists extra,
    window_by_max_turns [turn "user" "a"; turn "assistant" "b"; turn "user" "c"]
      2
    = extra
      ++ window_by_max_turns
           [turn "user" "a"; turn "assistant" "b"; turn "user" "c"] 1.
Proof.
  apply (window_by_max_turns_monotone
           [turn "user" "a"; turn "assistant" "b"; turn "user" "c"] 1 2).
  lia.
Defined.

Section BudgetOrder.
Context {db : UnicodeDB}.
Variable rt : Runtime.
Variable hint : option text.

Lemma budget_loop_monotone (b b' : Z) (items : list Turn) :
  (b <= b')%Z ->
  forall acc acc' total,
  exists taken more,
    budget_loop rt b hint items acc total = acc ++ taken
    /\ budget_loop rt b' hint items acc' total = acc' ++ taken ++ more.
Proof.
  intros Hb. induction items as [|item items IH]; intros acc acc' total.
  - exists [], []. simpl. rewrite !app_nil_r. auto.
  - cbn [budget_loop]. fold (line_cost rt hint item).
    destruct (total + line_cost rt hint item >? b)%Z eqn:E.
    + destruct (budget_loop_spec rt b' hint (item :: items) acc' total)
        as [taken' [_ [_ [Hl _]]]].
      cbn [budget_loop] in Hl. fold (line_cost rt hint item) in Hl.
      exists [], taken'. rewrite app_nil_r. split; [reflexivity | exact Hl].
    + replace (total + line_cost rt hint item >? b')%Z with false.
      * destruct (IH (acc ++ [item]) (acc' ++ [item])
                    (total + line_cost rt hint item)%Z)
          as [taken [more [H1 H2]]].
        exists (item :: taken), more. rewrite H1, H2, <- !app_assoc.
        split; reflexivity.
      * symmetry. rewrite Z.gtb_ltb in *. apply Z.ltb_ge.
        apply Z.ltb_ge in E. lia.
Qed.

End BudgetOrder.

(** X9: the token-budget window grows with the budget: for [b <= b'] the
    window for [b] is a suffix of the window for [b']. *)
Theorem window_by_token_budget_monotone {db : UnicodeDB}
  (rt : Runtime) (H : list Turn) (b b' : Z) (hint : option text) :
  (b <= b')%Z ->
  exists extra,
    window_by_token_budget rt H b' hint
    = extra ++ window_by_token_budget rt H b hint.
Proof.
  intros Hb. unfold window_by_token_budget.
  destruct (budget_loop_monotone rt hint b b' (rev H) Hb [] [] 0%Z)
    as [taken [more [H1 H2]]].
  rewrite H1, H2. cbn [app]. exists (rev more). apply rev_app_distr.
Qed.

Lemma window_by_token_budget_monotone_witness :
  exists extra,
    window_by_token_budget (db := ascii_db) no_tiktoken
      (normalize_history (db := ascii_db) five_lines) 9 None
    = extra
      ++ window_by_token_budget (db := ascii_db) no_tiktoken
           (normalize_history (db := ascii_db) five_lines) 4 None.
Proof.
  apply (window_by_token_budget_monotone (db := ascii_db) no_tiktoken
           (normalize_history (db := ascii_db) five_lines) 4 9 None).
  lia.
Defined.

(** X10: for a budget [b >= 0] the token-budget window is the longest
    suffix of the history that fits the budget: it is a suffix of the
    history, its turns cost at most [b] in total, and every suffix of the
    history whose turns cost at most [b] in total is a suffix of the
    window, so no longer than it. *)
Theorem window_by_token_budget_longest {db : UnicodeDB}
  (rt : Runtime) (H : list Turn) (b : Z) (hint : option text) :
  (0 <= b)%Z ->
  (exists dropped, H = dropped ++ window_by_token_budget rt H b hint)
  /\ (history_cost rt hint (window_by_token_budget rt H b hint) <= b)%Z
  /\ (forall older S,
        H = older ++ S ->
        (history_cost rt hint S <= b)%Z ->
        (exists extra, window_by_token_budget rt H b hint = extra ++ S)
        /\ length S <= length (window_by_token_budget rt H b hint)).
Proof.
  intros Hb.
  destruct (window_by_token_budget_spec rt b hint H)
    as [dropped [Hsuf [Hfit _]]].
  split; [exists dropped; exact Hsuf|].
  split; [destruct Hfit as [->|Hfit]; [simpl; lia | exact Hfit]|].
  intros older S HS Hcost.
  destruct (window_by_token_budget_covers rt b hint H older S HS Hcost)
    as [extra Hextra].
  split; [exists extra; exact Hextra|].
  rewrite Hextra, length_app. lia.
Qed.

Lemma window_by_token_budget_longest_witness :
  (history_cost (db := ascii_db) no_tiktoken None
     (window_by_token_budget (db := ascii_db) no_tiktoken
        (normalize_history (db := ascii_db) five_lines) 9 None) <= 9)%Z
  /\ (exists extra,
        window_by_token_budget (db := ascii_db) no_tiktoken
          (normalize_history (db := ascii_db) five_lines) 9 None
        = extra ++ [turn "user" "e"]).
Proof.
  assert (Hb : (0 <= 9)%Z) by lia.
  destruct (window_by_token_budget_longest (db := ascii_db) no_tiktoken
              (normalize_history (db := ascii_db) five_lines) 9 None Hb)
    as [_ [Hfit Hlong]].
  split; [exact Hfit|].
  apply (Hlong [turn "user" "a"; turn "assistant" "b"; turn "user" "c";
                turn "assistant" "d"]
           [turn "user" "e"]).
  - reflexivity.
  - vm_compute. discriminate.
Defined.

(** X11: the token-budget windower returns the whole history exactly
    when the history is empty or all of it fits the budget. *)
Theorem window_by_token_budget_whole_iff_fits {db : UnicodeDB}
  (rt : Runtime) (H : list Turn) (b : Z) (hint : option text) :
  window_by_token_budget rt H b hint = H
  <-> H = [] \/ (history_cost rt hint H <= b)%Z.
Proof.
  split.
  - intros E.
    destruct (window_by_token_budget_spec rt b hint H)
      as [_ [_ [Hfit _]]].
    rewrite E in Hfit. exact Hfit.
  - intros [->|Hfit]; [reflexivity|].
    unfold window_by_token_budget.
    rewrite budget_loop_all by (rewrite history_cost_rev; lia).
    cbn [app]. apply rev_involutive.
Qed.

Lemma window_by_token_budget_whole_iff_fits_witness :
  window_by_token_budget (db := ascii_db) no_tiktoken
    (normalize_history (db := ascii_db) five_lines) 20 None
  = normalize_history (db := ascii_db) five_lines.
Proof.
  apply (proj2 (window_by_token_budget_whole_iff_fits (db := ascii_db)
                  no_tiktoken (normalize_history (db := ascii_db) five_lines)
                  20 None)).
  right. vm_compute. discriminate.
Defined.

(** ** More on the normalizer *)

Section NormalizerMore.
Context {db : UnicodeDB}.

Lemma parse_turn_some (l : text) (t : Turn) :
  parse_turn l = Some t ->
  exists role0 content0,
    t = {| role := lower (strip role0); content := strip content0 |}
    /\ recognized_role (role t) = true.
Proof.
  unfold parse_turn.
  destruct (contains colon l); cbn [negb]; [|discriminate].
  destruct (split_once colon l) as [role0 content0].
  destruct (recognized_role (lower (strip role0))) eqn:E; cbn [negb];
    [|discriminate].
  intros H. injection H as <-. exists role0, content0. auto.
Qed.

Lemma spec_normalize_in (lines : list text) (t : Turn) :
  In t (spec_normalize lines) <-> exists l, In l lines /\ parse_turn l = Some t.
Proof.
  unfold spec_normalize. rewrite in_flat_map. split.
  - intros [l [Hl Ht]]. exists l. split; [exact Hl|].
    destruct (parse_turn l) as [t'|]; [|contradiction].
    destruct Ht as [->|[]]. reflexivity.
  - intros [l [Hl Ht]]. exists l. split; [exact Hl|]. rewrite Ht. left.
    reflexivity.
Qed.

Lemma spec_normalize_length (lines : list text) :
  length (spec_normalize lines) <= length lines.
Proof.
  unfold spec_normalize. induction lines as [|l lines IH]; simpl; [lia|].
  rewrite length_app. destruct (parse_turn l); simpl; lia.
Qed.

Lemma recognized_role_fixed (r : text) :
  recognized_role r = true -> lower (strip r) = r /\ ~ In colon r.
Proof.
  intros H. apply recognized_role_spec in H.
  assert (Ha : is_ascii r)
    by (destruct H as [->| ->]; apply is_asciib_spec; reflexivity).
  rewrite (strip_ascii r Ha).
  rewrite lower_ascii
    by (apply (is_ascii_incl r); [exact Ha | apply strip_with_incl]).
  destruct H as [->| ->]; (split; [reflexivity|]);
    vm_compute; intuition discriminate.
Qed.

Lemma parse_turn_turn_line (t : Turn) :
  recognized_role (role t) = true -> stripped (content t) ->
  parse_turn (turn_line t) = Some t.
Proof.
  intros Hr [Hh Hl]. destruct (recognized_role_fixed (role t) Hr) as [Hf Hc].
  unfold turn_line. change (lit ": ") with [colon; 32%N]. cbn [app].
  rewrite (parse_turn_colon (role t) (32%N :: content t) Hc), Hf, Hr.
  unfold strip. rewrite strip_with_space_head
    by (rewrite isspace_ascii by reflexivity; reflexivity).
  rewrite (strip_with_fixed isspace (content t) Hh Hl).
  destruct t; reflexivity.
Qed.

Lemma normalized_turn_clean (lines : list text) (t : Turn) :
  In t (normalize_history lines) ->
  recognized_role (role t) = true /\ stripped (content t).
Proof.
  rewrite normalize_history_eq_spec, spec_normalize_in.
  intros [l [_ Hl]]. destruct (parse_turn_some l t Hl) as [r0 [c0 [-> Hr]]].
  split; [exact Hr|]. cbn [content]. apply strip_is_stripped.
Qed.

End NormalizerMore.

(** X12: the normalizer returns at most one turn per line, every turn it
    returns comes from one of the lines, and the content of every turn
    neither starts nor ends with white space. *)
Theorem normalize_history_turns_are_clean {db : UnicodeDB}
  (lines : list text) :
  length (normalize_history lines) <= length lines
  /\ (forall t, In t (normalize_history lines) ->
        stripped (content t)
        /\ exists l, In l lines /\ parse_turn l = Some t).
Proof.
  split.
  - rewrite normalize_history_eq_spec. apply spec_normalize_length.
  - intros t Ht. split.
    + apply (normalized_turn_clean lines t Ht).
    + rewrite normalize_history_eq_spec in Ht.
      apply spec_normalize_in, Ht.
Qed.

Lemma normalize_history_turns_are_clean_witness :
  stripped (db := ascii_db) (lit "hi: there").
Proof.
  apply (proj2 (normalize_history_turns_are_clean (db := ascii_db)
                  [lit " USER : hi: there "]) (turn "user" "hi: there")).
  left. reflexivity.
Defined.

(** X13: a normalized turn written back in the form the [--turn] flag
    takes, "role: content", parses to the same turn; so normalizing the
    lines written back from a normalized history gives that history
    again. *)
Theorem normalize_history_round_trip {db : UnicodeDB} (lines : list text) :
  (forall t, In t (normalize_history lines) ->
     parse_turn (turn_line t) = Some t)
  /\ normalize_history (map turn_line (normalize_history lines))
     = normalize_history lines.
Proof.
  assert (Hrt : forall t, In t (normalize_history lines) ->
                  parse_turn (turn_line t) = Some t).
  { intros t Ht. destruct (normalized_turn_clean lines t Ht) as [Hr Hs].
    apply parse_turn_turn_line; assumption. }
  split; [exact Hrt|].
  rewrite (normalize_history_eq_spec (map turn_line _)).
  induction (normalize_history lines) as [|t h IH]; [reflexivity|].
  unfold spec_normalize in *. simpl.
  rewrite (Hrt t) by (left; reflexivity).
  rewrite IH by (intros t' Ht'; apply Hrt; right; exact Ht').
  reflexivity.
Qed.

Lemma normalize_history_round_trip_witness :
  parse_turn (db := ascii_db) (lit "user: hi: there")
  = Some (turn "user" "hi: there").
Proof.
  apply (proj1 (normalize_history_round_trip (db := ascii_db)
                  [lit " USER : hi: there "]) (turn "user" "hi: there")).
  left. reflexivity.
Defined.

(** ** The instruction and the history block of the main block *)

Lemma join_cons (sep x : text) (rest : list text) :
  rest <> [] -> join sep (x :: rest) = x ++ sep ++ join sep rest.
Proof. destruct rest; [contradiction | reflexivity]. Qed.

Lemma join_app (sep : text) (l1 l2 : list text) :
  l1 <> [] -> l2 <> [] ->
  join sep (l1 ++ l2) = join sep l1 ++ sep ++ join sep l2.
Proof.
  intros H1 H2. induction l1 as [|x l1 IH]; [contradiction|].
  destruct l1 as [|y l1].
  - cbn [app]. rewrite join_cons by exact H2. reflexivity.
  - cbn [app] in *. rewrite join_cons by discriminate.
    rewrite IH by discriminate. rewrite (join_cons sep x) by discriminate.
    rewrite <- !app_assoc. reflexivity.
Qed.

Section InstructionFacts.
Context {db : UnicodeDB}.

Lemma render_line_history_line (t : Turn) :
  render_line t = history_line t ++ [10%N].
Proof. unfold render_line, history_line. rewrite <- !app_assoc. reflexivity. Qed.

Lemma hist_text_concat (window : list Turn) :
  hist_text window = concat (map render_line window).
Proof.
  unfold hist_text. induction window as [|t window IH]; [reflexivity|].
  cbn [map concat]. rewrite render_line_history_line, <- IH. clear IH.
  destruct window as [|t' window].
  - cbn [map join app]. rewrite app_nil_r. reflexivity.
  - cbn [map]. rewrite join_cons by discriminate.
    rewrite <- !app_assoc. reflexivity.
Qed.

Lemma build_instruction_parts (window : list Turn) (msg : text) :
  build_instruction window msg
  = instruction_header ++ history_block window ++ instruction_footer ++ msg.
Proof.
  unfold build_instruction, instruction_header, instruction_footer.
  set (A := lit "You are a helpful assistant. Use the recent conversation history for context.").
  set (B := lit "If the history does not contain the answer, ask clarifying questions or say you don't know.").
  set (R := lit "RECENT HISTORY:"). set (Q := lit "CURRENT REQUEST:").
  assert (Hgen : forall X, X <> [] ->
    join [10%N] ((([A; B; 10%N :: R] ++ X) ++ [10%N :: Q]) ++ [msg])
    = (A ++ [10%N] ++ B ++ [10%N] ++ [10%N] ++ R ++ [10%N])
      ++ (join [10%N] X ++ [10%N]) ++ ([10%N] ++ Q ++ [10%N]) ++ msg).
  { intros X HX.
    rewrite join_app; [|destruct X; discriminate | discriminate].
    rewrite join_app; [|discriminate | discriminate].
    rewrite join_app; [|discriminate | exact HX].
    cbn [join]. rewrite <- ?app_assoc. cbn [app]. rewrite <- ?app_assoc.
    reflexivity. }
  destruct window as [|t window].
  - rewrite (Hgen [lit "(none)"]) by discriminate. reflexivity.
  - rewrite Hgen by discriminate. unfold history_block.
    rewrite <- hist_text_concat. reflexivity.
Qed.

Lemma newline_plain_space : plain_space 10%N = true.
Proof.
  unfold plain_space.
  rewrite isspace_ascii, isword_ascii by reflexivity. reflexivity.
Qed.

Lemma heuristic_count_render_lines (window : list Turn) :
  _heuristic_count (concat (map render_line window))
  = fold_right (fun t acc => _heuristic_count (render_line t) + acc) 0 window.
Proof.
  induction window as [|t window IH]; [reflexivity|].
  cbn [map concat fold_right]. rewrite render_line_history_line.
  rewrite <- app_assoc. cbn [app].
  rewrite !(heuristic_count_app_space _ _ 10%N newline_plain_space).
  rewrite IH. change (_heuristic_count []) with 0. lia.
Qed.

Lemma heuristic_runtime_count (rt : Runtime) (s : text) (hint : option text) :
  heuristic_runtime rt -> Demo.count_tokens rt s hint = _heuristic_count s.
Proof.
  intros [H|H]; unfold Demo.count_tokens.
  - rewrite H. reflexivity.
  - destruct (tok_mod_loaded rt); [|reflexivity]. cbn [negb]. rewrite H.
    reflexivity.
Qed.

Lemma heuristic_runtime_hist_text (rt : Runtime) (hint : option text)
  (window : list Turn) :
  heuristic_runtime rt ->
  Z.of_nat (Demo.count_tokens rt (hist_text window) hint)
  = history_cost rt hint window.
Proof.
  intros H. rewrite heuristic_runtime_count by exact H.
  rewrite hist_text_concat, heuristic_count_render_lines.
  induction window as [|t window IH]; [reflexivity|].
  cbn [fold_right history_cost]. fold (history_cost rt hint window).
  unfold line_cost. rewrite heuristic_runtime_count by exact H. lia.
Qed.

End InstructionFacts.

(** X14: the instruction is a fixed header, the history block, a fixed
    heading and the current message, unchanged, at the end; the history
    block of a non-empty window is the rendered lines of its turns in
    order, the very lines the token-budget windower measured, and the one
    of an empty window is the line "(none)"; the history text whose
    tokens the main block reports is the same concatenation. *)
Theorem build_instruction_embeds_rendered_window {db : UnicodeDB}
  (window : list Turn) (msg : text) :
  build_instruction window msg
  = instruction_header ++ history_block window ++ instruction_footer ++ msg
  /\ hist_text window = concat (map render_line window)
  /\ build_instruction [] msg
     = instruction_header ++ lit "(none)" ++ [10%N] ++ instruction_footer
       ++ msg.
Proof.
  split; [apply build_instruction_parts|].
  split; [apply hist_text_concat|].
  rewrite build_instruction_parts. unfold history_block.
  rewrite <- !app_assoc. reflexivity.
Qed.

(** ** The main blocks *)

Section MainFacts.
Context {db : UnicodeDB}.

Lemma budget_guard (b : Z) :
  truthy_int (Some b) && (b >? 0)%Z = (0 <? b)%Z.
Proof.
  unfold truthy_int. rewrite Z.gtb_ltb.
  destruct (Z.ltb_spec 0 b) as [H|H].
  - replace (b =? 0)%Z with false by (symmetry; apply Z.eqb_neq; lia).
    reflexivity.
  - apply andb_false_r.
Qed.

Lemma main_window_some (rt : Runtime) (H : list Turn) (max_turns b : Z)
  (hint : option text) :
  main_window rt H max_turns (Some b) hint
  = if (0 <? b)%Z
    then (window_by_token_budget rt H b hint, token_budget_method b)
    else (window_by_max_turns H max_turns, max_turns_method max_turns).
Proof. unfold main_window. rewrite budget_guard. reflexivity. Qed.

Lemma main_present (path : text) (rt : Runtime) (msg : text)
  (turns : list text) (max_turns : Z) (token_budget : option Z)
  (hint : option text) (w : World) (resource : text) :
  files w path = Some (Ok resource) ->
  Demo.main path rt msg turns max_turns token_budget hint w
  = (let (window, method) :=
       main_window rt (normalize_history turns) max_turns token_budget hint in
     Ok {| window_method := method;
           included_turns := length window;
           system_out := strip resource;
           instruction_out := build_instruction window msg;
           history_tokens :=
             match token_budget with
             | Some b =>
                 if truthy_int token_budget && (b >? 0)%Z
                 then Some (Demo.count_tokens rt (hist_text window) hint)
                 else None
             | None => None
             end |},
     emit (ReadText path) (emit (PathExists path) w)).
Proof.
  intros Hf. unfold Demo.main.
  destruct (main_window rt (normalize_history turns) max_turns token_budget
              hint) as [window method].
  unfold iobind. rewrite (build_prompt_present path w _ resource Hf).
  reflexivity.
Qed.

Lemma main_absent (path : text) (rt : Runtime) (msg : text)
  (turns : list text) (max_turns : Z) (token_budget : option Z)
  (hint : option text) (w : World) :
  files w path = None ->
  Demo.main path rt msg turns max_turns token_budget hint w
  = (Raise (FileNotFoundError (lit "Missing system prompt at " ++ path)),
     emit (PathExists path) w).
Proof.
  intros Hf. unfold Demo.main.
  destruct (main_window rt (normalize_history turns) max_turns token_budget
              hint) as [window method].
  unfold iobind. rewrite (build_prompt_absent path w _ Hf). reflexivity.
Qed.

Lemma main_unreadable (path : text) (rt : Runtime) (msg : text)
  (turns : list text) (max_turns : Z) (token_budget : option Z)
  (hint : option text) (w : World) (e : exn) :
  files w path = Some (Raise e) ->
  Demo.main path rt msg turns max_turns token_budget hint w
  = (Raise e, emit (ReadText path) (emit (PathExists path) w)).
Proof.
  intros Hf. unfold Demo.main.
  destruct (main_window rt (normalize_history turns) max_turns token_budget
              hint) as [window method].
  unfold iobind. rewrite (build_prompt_unreadable path w _ e Hf). reflexivity.
Qed.

End MainFacts.

(** X15: with the heuristic estimator, the "History tokens" figure the
    main block reports is the sum of the costs of the included turns, the
    costs the windower added up, so it does not exceed the token budget;
    it is reported only for a positive budget, together with the
    token-budget method. *)
Theorem main_history_tokens_within_budget {db : UnicodeDB}
  (path : text) (rt : Runtime) (msg : text) (turns : list text)
  (max_turns : Z) (token_budget : option Z) (hint : option text)
  (w w' : World) (report : Report) (n : nat) :
  heuristic_runtime rt ->
  Demo.main path rt msg turns max_turns token_budget hint w = (Ok report, w') ->
  history_tokens report = Some n ->
  exists b,
    token_budget = Some b /\ (0 < b)%Z
    /\ window_method report = token_budget_method b
    /\ Z.of_nat n
       = history_cost rt hint
           (window_by_token_budget rt (normalize_history turns) b hint)
    /\ (Z.of_nat n <= b)%Z.
Proof.
  intros Hrt Hmain Hn.
  destruct (files w path) as [[resource|e]|] eqn:Hf;
    [|rewrite (main_unreadable path rt msg turns max_turns token_budget hint
                 w e Hf) in Hmain; discriminate
     |rewrite (main_absent path rt msg turns max_turns token_budget hint w Hf)
        in Hmain; discriminate].
  rewrite (main_present path rt msg turns max_turns token_budget hint w
             resource Hf) in Hmain.
  destruct token_budget as [b|].
  - rewrite main_window_some, budget_guard in Hmain.
    destruct (Z.ltb_spec 0 b) as [Hb|Hb].
    + injection Hmain as <- _. cbn [history_tokens window_method] in *.
      injection Hn as <-. exists b.
      rewrite heuristic_runtime_hist_text by exact Hrt.
      repeat split; try assumption.
      destruct (window_by_token_budget_spec rt b hint (normalize_history turns))
        as [_ [_ [[->|Hc] _]]]; [simpl; lia | exact Hc].
    + injection Hmain as <- _. discriminate.
  - cbn in Hmain. injection Hmain as <- _. discriminate.
Qed.

Lemma main_history_tokens_within_budget_witness :
  exists b,
    Some 9%Z = Some b /\ (0 < b)%Z
    /\ token_budget_method 9 = token_budget_method b
    /\ Z.of_nat 8
       = history_cost (db := ascii_db)
           {| tok_mod_loaded := true; tiktoken := None |} None
           (window_by_token_budget (db := ascii_db)
              {| tok_mod_loaded := true; tiktoken := None |}
              (normalize_history (db := ascii_db) five_lines) b None)
    /\ (Z.of_nat 8 <= b)%Z.
Proof.
  exact (main_history_tokens_within_budget (db := ascii_db)
           (lit "system_prompt.md") no_tiktoken (lit "Final question")
           five_lines 4 (Some 9%Z) None prompt_world _
           {| window_method := token_budget_method 9;
              included_turns := 2;
              system_out := lit "You are a mentor.";
              instruction_out :=
                build_instruction (db := ascii_db)
                  [turn "assistant" "d"; turn "user" "e"]
                  (lit "Final question");
              history_tokens := Some 8 |}
           8 (or_intror eq_refl) eq_refl eq_refl).
Defined.

(** X16: the main block of the conversation demo raises
    [FileNotFoundError], after one existence probe, when the system-prompt
    resource is missing, and lets the error of [read_text] through when
    the resource exists but cannot be read (a directory, no permission,
    bytes that are not UTF-8); it succeeds only when the resource text was
    read.  When it succeeds it includes no more turns than [--turn] lines
    were given and, when it reports the max-turns method, no more than
    [max(0, max_turns)]; the system text it prints is the stripped
    resource and the instruction it prints ends with the current message. *)
Theorem main_report_bounds {db : UnicodeDB}
  (path : text) (rt : Runtime) (msg : text) (turns : list text)
  (max_turns : Z) (token_budget : option Z) (hint : option text)
  (w : World) :
  (files w path = None ->
   Demo.main path rt msg turns max_turns token_budget hint w
   = (Raise (FileNotFoundError (lit "Missing system prompt at " ++ path)),
      emit (PathExists path) w))
  /\ (forall e,
        files w path = Some (Raise e) ->
        Demo.main path rt msg turns max_turns token_budget hint w
        = (Raise e, emit (ReadText path) (emit (PathExists path) w)))
  /\ (forall report w',
        Demo.main path rt msg turns max_turns token_budget hint w
        = (Ok report, w') ->
        included_turns report <= length turns
        /\ (window_method report = max_turns_method max_turns ->
            (Z.of_nat (included_turns report) <= Z.max 0 max_turns)%Z)
        /\ (exists resource,
              files w path = Some (Ok resource)
              /\ system_out report = strip resource)
        /\ (exists front, instruction_out report = front ++ msg)).
Proof.
  split; [apply main_absent|].
  split; [intros e; apply main_unreadable|].
  - intros report w' Hm.
    destruct (files w path) as [[r|e]|] eqn:Hf;
      [|rewrite (main_unreadable path rt msg turns max_turns token_budget
                   hint w e Hf) in Hm; discriminate
       |rewrite (main_absent path rt msg turns max_turns token_budget hint
                   w Hf) in Hm; discriminate].
    rewrite (main_present path rt msg turns max_turns token_budget hint w
               r Hf) in Hm.
    assert (Hlen : forall W dropped, normalize_history turns = dropped ++ W ->
                     length W <= length turns).
    { intros W dropped E.
      pose proof (spec_normalize_length turns) as Hl.
      rewrite <- normalize_history_eq_spec, E, length_app in Hl. lia. }
    assert (Hmt : length (window_by_max_turns (normalize_history turns)
                            max_turns) <= length turns
                  /\ (Z.of_nat (length (window_by_max_turns
                                          (normalize_history turns) max_turns))
                      <= Z.max 0 max_turns)%Z).
    { destruct (window_by_max_turns_suffix (normalize_history turns)
                  max_turns) as [d Hd].
      split; [apply (Hlen _ d Hd)|].
      destruct (Z_le_gt_dec max_turns 0) as [Hn|Hn].
      - rewrite window_by_max_turns_nonpos by lia. simpl. lia.
      - rewrite window_by_max_turns_length by lia. lia. }
    assert (Hfront : forall W, exists front,
                       build_instruction W msg = front ++ msg).
    { intros W. rewrite build_instruction_parts.
      exists (instruction_header ++ history_block W ++ instruction_footer).
      rewrite <- !app_assoc. reflexivity. }
    destruct token_budget as [b|].
    + rewrite main_window_some in Hm.
      destruct (0 <? b)%Z; injection Hm as <- _;
        cbn [included_turns window_method system_out instruction_out].
      * split.
        { destruct (window_by_token_budget_spec rt b hint
                      (normalize_history turns)) as [d [Hd _]].
          apply (Hlen _ d Hd). }
        split; [discriminate|]. split; [exists r; auto | apply Hfront].
      * split; [apply Hmt|]. split; [intros _; apply Hmt|].
        split; [exists r; auto | apply Hfront].
    + cbn [main_window] in Hm. injection Hm as <- _.
      cbn [included_turns window_method system_out instruction_out].
      split; [apply Hmt|]. split; [intros _; apply Hmt|].
      split; [exists r; auto | apply Hfront].
Qed.

Lemma main_report_bounds_witness :
  Demo.main (db := ascii_db) (lit "system_prompt.md") no_tiktoken
    (lit "Final question") five_lines 4 None None empty_world
  = (Raise (FileNotFoundError (lit "Missing system prompt at system_prompt.md")),
     emit (PathExists (lit "system_prompt.md")) empty_world)
  /\ Demo.main (db := ascii_db) (lit "system_prompt.md") no_tiktoken
       (lit "Final question") five_lines 4 None None directory_world
     = (Raise (IsADirectoryError (lit "system_prompt.md")),
        emit (ReadText (lit "system_prompt.md"))
          (emit (PathExists (lit "system_prompt.md")) directory_world))
  /\ (4 <= length five_lines
      /\ (Z.of_nat 4 <= Z.max 0 4)%Z
      /\ exists front,
           build_instruction (db := ascii_db)
             [turn "assistant" "b"; turn "user" "c"; turn "assistant" "d";
              turn "user" "e"] (lit "Final question")
           = front ++ lit "Final question").
Proof.
  split; [|split].
  - apply (proj1 (main_report_bounds (db := ascii_db)
                    (lit "system_prompt.md") no_tiktoken
                    (lit "Final question") five_lines 4 None None
                    empty_world)).
    reflexivity.
  - apply (proj1 (proj2 (main_report_bounds (db := ascii_db)
                           (lit "system_prompt.md") no_tiktoken
                           (lit "Final question") five_lines 4 None None
                           directory_world))).
    reflexivity.
  - destruct (proj2 (proj2 (main_report_bounds (db := ascii_db)
                              (lit "system_prompt.md") no_tiktoken
                              (lit "Final question") five_lines 4 None None
                              prompt_world))
                {| window_method := max_turns_method 4;
                   included_turns := 4;
                   system_out := lit "You are a mentor.";
                   instruction_out :=
                     build_instruction (db := ascii_db)
                       [turn "assistant" "b"; turn "user" "c";
                        turn "assistant" "d"; turn "user" "e"]
                       (lit "Final question");
                   history_tokens := None |}
                _ eq_refl) as [Hlen [Hmax [_ Hfront]]].
    split; [exact Hlen|]. split; [exact (Hmax eq_refl) | exact Hfront].
Defined.





(** ** The validators of the structured-output and tool-calling demos *)

Section ValidatorFacts.
Import Json.

Lemma has_key_get (d : dict) (k : text) :
  has_key d k = true <-> exists v, get k d = Some v.
Proof.
  unfold has_key. destruct (get k d) as [v|]; split.
  - intros _. exists v. reflexivity.
  - reflexivity.
  - discriminate.
  - intros [v Hv]. discriminate.
Qed.

Lemma nonempty_list_get (d : dict) (k : text) :
  match get k d with Some v => nonempty_list v | None => false end = true
  <-> has_nonempty_array d k.
Proof.
  unfold has_nonempty_array. destruct (get k d) as [v|]; split.
  - destruct v as [| | | | |[|x xs]|]; try discriminate.
    intros _. exists x, xs. reflexivity.
  - intros [x [xs E]]. injection E as ->. reflexivity.
  - discriminate.
  - intros [x [xs E]]. discriminate.
Qed.

Lemma int_between_get (d : dict) :
  match get (lit "score") d with
  | Some v => int_between 0 10 v
  | None => false
  end = true
  <-> (exists z, get (lit "score") d = Some (JInt z) /\ (0 <= z <= 10)%Z)
      \/ (exists b, get (lit "score") d = Some (JBool b)).
Proof.
  destruct (get (lit "score") d) as [v|]; split.
  - destruct v as [|b|z| | | |]; try discriminate.
    + intros _. right. exists b. reflexivity.
    + simpl. intros H. apply andb_true_iff in H. destruct H as [H1 H2].
      apply Z.leb_le in H1, H2. left. exists z. split; [reflexivity | lia].
  - intros [[z [E Hz]]|[b E]]; injection E as ->; simpl.
    + apply andb_true_iff. split; apply Z.leb_le; lia.
    + destruct b; reflexivity.
  - discriminate.
  - intros [[z [E _]]|[b E]]; discriminate.
Qed.

Lemma has_nonempty_array_key (d : dict) (k : text) :
  has_nonempty_array d k -> has_key d k = true.
Proof. intros [x [xs E]]. apply has_key_get. eauto. Qed.

End ValidatorFacts.

Lemma validate_payload_verdict
  (repr : Json.json -> text) (jsonschema : option Json.Jsonschema)
  (payload schema : Json.json) :
  fst (StructuredOutputDemo.validate_payload repr jsonschema payload schema)
  = true
  <-> schema_accepts jsonschema payload schema
      \/ passes_minimal_checks payload.
Proof.
  unfold StructuredOutputDemo.validate_payload, schema_accepts.
  destruct (match jsonschema with
            | Some validate => validate payload schema
            | None => false
            end) eqn:Ev.
  - split; [|reflexivity]. intros _. left.
    destruct jsonschema as [validate|]; [|discriminate]. eauto.
  - assert (Hno : ~ exists validate,
                      jsonschema = Some validate
                      /\ validate payload schema = true).
    { intros [validate [-> Hv]]. congruence. }
    unfold passes_minimal_checks.
    destruct payload as [| | | | | |d];
      try (split; [discriminate | intros [H|[d [E _]]]; [tauto|discriminate]]).
    pose proof (nonempty_list_get d (lit "strengths")) as Hs.
    pose proof (nonempty_list_get d (lit "weaknesses")) as Hw.
    pose proof (nonempty_list_get d (lit "recommendations")) as Hr.
    pose proof (int_between_get d) as Hi.
    split.
    + destruct (forallb (Json.has_key d) StructuredOutputDemo.required_keys);
        cbn [negb fst]; [|discriminate].
      destruct (match Json.get (lit "strengths") d with
                | Some v => Json.nonempty_list v | None => false end);
        cbn [negb fst]; [|discriminate].
      destruct (match Json.get (lit "weaknesses") d with
                | Some v => Json.nonempty_list v | None => false end);
        cbn [negb fst]; [|discriminate].
      destruct (match Json.get (lit "recommendations") d with
                | Some v => Json.nonempty_list v | None => false end);
        cbn [negb fst]; [|discriminate].
      destruct (match Json.get (lit "score") d with
                | Some v => Json.int_between 0 10 v | None => false end);
        cbn [negb fst]; [|discriminate].
      intros _. right. exists d. intuition.
    + intros [H|[d' [E [H1 [H2 [H3 H4]]]]]]; [tauto|].
      injection E as <-.
      assert (Hk : forallb (Json.has_key d)
                     StructuredOutputDemo.required_keys = true).
      { unfold StructuredOutputDemo.required_keys. cbn [forallb].
        rewrite (has_nonempty_array_key d _ H1),
          (has_nonempty_array_key d _ H2), (has_nonempty_array_key d _ H3).
        replace (Json.has_key d (lit "score")) with true; [reflexivity|].
        symmetry. apply has_key_get.
        destruct H4 as [[z [E _]]|[b E]]; eauto. }
      rewrite Hk. cbn [negb].
      rewrite (proj2 Hs H1), (proj2 Hw H2), (proj2 Hr H3), (proj2 Hi H4).
      reflexivity.
Qed.

(** X18: [validate_payload] reports a payload valid exactly when
    [jsonschema] is installed and accepts it or the payload passes the
    minimal checks.  So the verdict of [jsonschema] is final only when it
    accepts: a payload it rejects (for an extra property, say, or for
    array items that are not strings) is still reported valid when it is
    an object with the three non-empty arrays and a score from 0 to 10;
    and a boolean score passes the minimal checks. *)
Theorem validate_payload_accepts_iff
  (repr : Json.json -> text) (jsonschema : option Json.Jsonschema)
  (payload schema : Json.json) :
  fst (StructuredOutputDemo.validate_payload repr jsonschema payload schema)
  = true
  <-> schema_accepts jsonschema payload schema
      \/ passes_minimal_checks payload.
Proof. apply validate_payload_verdict. Qed.

Lemma feedback_with_extra_passes : passes_minimal_checks feedback_with_extra.
Proof.
  eexists. split; [reflexivity|].
  repeat split; try (do 2 eexists; reflexivity).
  left. exists 7%Z. split; [reflexivity | lia].
Qed.

Lemma validate_payload_accepts_iff_witness :
  fst (StructuredOutputDemo.validate_payload silent_repr
         (Some rejecting_jsonschema) feedback_with_extra Json.JNull)
  = true.
Proof.
  apply (proj2 (validate_payload_accepts_iff silent_repr
                  (Some rejecting_jsonschema) feedback_with_extra
                  Json.JNull)).
  right. exact feedback_with_extra_passes.
Defined.

Lemma get_app_some (k : text) (d extra : Json.dict) (v : Json.json) :
  Json.get k d = Some v -> Json.get k (d ++ extra) = Some v.
Proof.
  unfold Json.get. induction d as [|kv d IH]; simpl; [discriminate|].
  destruct (text_eqb (fst kv) k); auto.
Qed.

(** X19: the minimal checks of [validate_payload] do not enforce
    [additionalProperties]: a payload they accept is still accepted with
    more properties added after its own, whatever [jsonschema] says. *)
Theorem validate_payload_tolerates_extra_properties
  (repr : Json.json -> text) (jsonschema : option Json.Jsonschema)
  (d extra : Json.dict) (schema : Json.json) :
  passes_minimal_checks (Json.JObject d) ->
  fst (StructuredOutputDemo.validate_payload repr jsonschema
         (Json.JObject (d ++ extra)) schema) = true.
Proof.
  intros [d' [E [H1 [H2 [H3 H4]]]]]. injection E as <-.
  apply validate_payload_verdict. right.
  assert (Hna : forall k, has_nonempty_array d k ->
                  has_nonempty_array (d ++ extra) k).
  { intros k [x [xs Hx]]. exists x, xs. apply get_app_some, Hx. }
  exists (d ++ extra). split; [reflexivity|].
  repeat split; try (apply Hna; assumption).
  destruct H4 as [[z [Hz Hr]]|[b Hb]].
  - left. exists z. split; [apply get_app_some, Hz | exact Hr].
  - right. exists b. apply get_app_some, Hb.
Qed.

Lemma validate_payload_tolerates_extra_properties_witness :
  fst (StructuredOutputDemo.validate_payload silent_repr
         (Some rejecting_jsonschema)
         (Json.JObject
            ([(lit "strengths", Json.JArray [Json.JString (lit "a")]);
              (lit "weaknesses", Json.JArray [Json.JString (lit "b")]);
              (lit "score", Json.JBool true);
              (lit "recommendations", Json.JArray [Json.JString (lit "c")])]
             ++ [(lit "more", Json.JInt 1)]))
         Json.JNull)
  = true.
Proof.
  apply (validate_payload_tolerates_extra_properties silent_repr
           (Some rejecting_jsonschema)).
  eexists. split; [reflexivity|].
  repeat split; try (do 2 eexists; reflexivity).
  right. exists true. reflexivity.
Defined.

Section ToolCallFacts.
Import Json ToolCallingDemo.
Variable repr : json -> text.
Variable jsonschema : option Jsonschema.

Lemma validate_known_tool_accepts (name : text) (args : json) :
  (exists info, validate_known_tool repr jsonschema name args
                = Returned true info)
  <-> exists a,
        args = JObject a
        /\ (schema_accepts jsonschema args (parameters name)
            \/ forall k, In k (required (parameters name)) ->
                         has_key a k = true).
Proof.
  unfold validate_known_tool, schema_accepts.
  destruct args as [| | | | | |a];
    try (split; [intros [info H]; discriminate
                | intros [a [E _]]; discriminate]).
  destruct (match jsonschema with
            | Some validate => validate (JObject a) (parameters name)
            | None => false
            end) eqn:Ev.
  - split; [|eauto]. intros _. exists a. split; [reflexivity|]. left.
    destruct jsonschema as [validate|]; [|discriminate]. eauto.
  - destruct (forallb (has_key a) (required (parameters name))) eqn:Ef;
      cbn [negb].
    + split; [|eauto]. intros _. exists a. split; [reflexivity|]. right.
      apply forallb_forall, Ef.
    + split; [intros [info H]; discriminate|].
      intros [a' [E [[validate [-> Hv]]|Hall]]].
      * congruence.
      * injection E as <-. apply forallb_forall in Hall. congruence.
Qed.

Lemma validate_known_tool_returns (name : text) (args : json) :
  exists ok info,
    validate_known_tool repr jsonschema name args = Returned ok info.
Proof.
  unfold validate_known_tool.
  destruct args; try (do 2 eexists; reflexivity).
  destruct (match jsonschema with Some _ => _ | None => _ end);
    [do 2 eexists; reflexivity|].
  destruct (negb _); do 2 eexists; reflexivity.
Qed.

End ToolCallFacts.

(** X20: [validate_tool_call] reports a call valid exactly when the
    payload is an object whose "tool" is the name of one of the three
    tools and whose "arguments" is an object that [jsonschema] accepts
    or, failing that, that has every required argument of the tool
    ("location"; "query"; "title", "date" and "attendees").  So a call
    [jsonschema] rejects, for an argument of the wrong type or for an
    extra one, is still reported valid when no required argument is
    missing. *)
Theorem validate_tool_call_accepts_iff
  (repr : Json.json -> text) (jsonschema : option Json.Jsonschema)
  (payload : Json.json) :
  ((exists info,
      ToolCallingDemo.validate_tool_call repr jsonschema payload
      = ToolCallingDemo.Returned true info)
   <-> exists d name a,
         payload = Json.JObject d
         /\ Json.get (lit "tool") d = Some (Json.JString name)
         /\ (name = lit "get_weather" \/ name = lit "search_docs"
             \/ name = lit "schedule_meeting")
         /\ Json.get (lit "arguments") d = Some (Json.JObject a)
         /\ (schema_accepts jsonschema (Json.JObject a)
               (ToolCallingDemo.parameters name)
             \/ forall k,
                  In k (ToolCallingDemo.required
                          (ToolCallingDemo.parameters name)) ->
                  Json.has_key a k = true))
  /\ ToolCallingDemo.required (ToolCallingDemo.parameters (lit "get_weather"))
     = [lit "location"]
  /\ ToolCallingDemo.required (ToolCallingDemo.parameters (lit "search_docs"))
     = [lit "query"]
  /\ ToolCallingDemo.required
       (ToolCallingDemo.parameters (lit "schedule_meeting"))
     = [lit "title"; lit "date"; lit "attendees"].
Proof.
  split; [|repeat split; reflexivity].
  assert (Hknown : forall name,
            Json.has_key ToolCallingDemo.TOOLS name = true
            <-> name = lit "get_weather" \/ name = lit "search_docs"
                \/ name = lit "schedule_meeting").
  { intros name. unfold Json.has_key, Json.get, ToolCallingDemo.TOOLS.
    cbn [find fst ToolCallingDemo.field].
    destruct (text_eqb (lit "get_weather") name) eqn:E1;
      [apply text_eqb_eq in E1; subst; tauto|].
    destruct (text_eqb (lit "search_docs") name) eqn:E2;
      [apply text_eqb_eq in E2; subst; tauto|].
    destruct (text_eqb (lit "schedule_meeting") name) eqn:E3;
      [apply text_eqb_eq in E3; subst; tauto|].
    split; [discriminate|].
    intros [ -> | [ -> | -> ] ]; rewrite (proj2 (text_eqb_eq _ _) eq_refl) in *;
      discriminate. }
  unfold ToolCallingDemo.validate_tool_call.
  destruct payload as [| | | | | |d];
    try (split; [intros [info H]; discriminate
                | intros [d [name [a [E _]]]]; discriminate]).
  destruct (Json.get (lit "tool") d) as [tool|] eqn:Et;
    [|split; [intros [info H]; discriminate
             | intros [d' [name [a [E [Hn _]]]]]; injection E as <-;
               congruence]].
  destruct tool as [| | | |name| |];
    try (split; [intros [info H]; discriminate
                | intros [d' [name [a [E [Hn _]]]]]; injection E as <-;
                  congruence]).
  destruct (Json.has_key ToolCallingDemo.TOOLS name) eqn:Ek; cbn [negb].
  - rewrite validate_known_tool_accepts. split.
    + intros [a [Ea Hok]]. exists d, name, a.
      destruct (Json.get (lit "arguments") d) as [args|];
        [|discriminate].
      subst args. repeat split; auto. apply Hknown, Ek.
    + intros [d' [name' [a [E [Hn [_ [Ha Hok]]]]]]]. injection E as <-.
      rewrite Et in Hn. injection Hn as <-. rewrite Ha.
      exists a. split; [reflexivity | exact Hok].
  - split; [intros [info H]; discriminate|].
    intros [d' [name' [a [E [Hn [Hk _]]]]]]. injection E as <-.
    rewrite Et in Hn. injection Hn as <-. apply Hknown in Hk. congruence.
Qed.

Lemma validate_tool_call_accepts_iff_witness :
  exists info,
    ToolCallingDemo.validate_tool_call silent_repr
      (Some rejecting_jsonschema) weather_call
    = ToolCallingDemo.Returned true info.
Proof.
  apply (proj2 (proj1 (validate_tool_call_accepts_iff silent_repr
                         (Some rejecting_jsonschema) weather_call))).
  exists [(lit "tool", Json.JString (lit "get_weather"));
          (lit "arguments",
           Json.JObject [(lit "location", Json.JInt 5);
                         (lit "extra", Json.JNull)])],
    (lit "get_weather"),
    [(lit "location", Json.JInt 5); (lit "extra", Json.JNull)].
  repeat split; auto. right. intros k [<-|[]]. reflexivity.
Defined.

(** X21: [validate_tool_call] does not always return: it raises
    [TypeError] exactly when the payload is an object whose "tool" is an
    array or an object (an unhashable value looked up in the tool
    table); for every other payload it returns a verdict. *)
Theorem validate_tool_call_raises_iff
  (repr : Json.json -> text) (jsonschema : option Json.Jsonschema)
  (payload : Json.json) :
  ((exists t,
      ToolCallingDemo.validate_tool_call repr jsonschema payload
      = ToolCallingDemo.TypeError t)
   <-> exists d,
         payload = Json.JObject d
         /\ ((exists items, Json.get (lit "tool") d = Some (Json.JArray items))
             \/ (exists items,
                   Json.get (lit "tool") d = Some (Json.JObject items))))
  /\ ((exists ok info,
         ToolCallingDemo.validate_tool_call repr jsonschema payload
         = ToolCallingDemo.Returned ok info)
      \/ (exists t,
            ToolCallingDemo.validate_tool_call repr jsonschema payload
            = ToolCallingDemo.TypeError t)).
Proof.
  unfold ToolCallingDemo.validate_tool_call.
  destruct payload as [| | | | | |d];
    try (split; [split; [intros [t H]; discriminate
                        | intros [d [E _]]; discriminate]
                | left; do 2 eexists; reflexivity]).
  assert (Hnever : forall o v,
            Json.get (lit "tool") d = v ->
            (forall items, v <> Some (Json.JArray items)) ->
            (forall items, v <> Some (Json.JObject items)) ->
            (exists ok info, o = ToolCallingDemo.Returned ok info) ->
            ((exists t, o = ToolCallingDemo.TypeError t)
             <-> exists d',
                   Json.JObject d = Json.JObject d'
                   /\ ((exists items,
                          Json.get (lit "tool") d' = Some (Json.JArray items))
                       \/ (exists items,
                             Json.get (lit "tool") d'
                             = Some (Json.JObject items))))
            /\ ((exists ok info, o = ToolCallingDemo.Returned ok info)
                \/ (exists t, o = ToolCallingDemo.TypeError t))).
  { intros o v Hv Ha Ho Hret. split; [|left; exact Hret]. split.
    - intros [t Ht]. destruct Hret as [ok [info Hr]]. congruence.
    - intros [d' [E [[items H]|[items H]]]]; injection E as <-; exfalso.
      + apply (Ha items). congruence.
      + apply (Ho items). congruence. }
  destruct (Json.get (lit "tool") d) as [tool|] eqn:Et;
    [|apply (Hnever _ None eq_refl); try discriminate;
      do 2 eexists; reflexivity].
  destruct tool as [| | | |name|items|items];
    try (apply (Hnever _ _ eq_refl); try discriminate;
         do 2 eexists; reflexivity).
  - apply (Hnever _ _ eq_refl); try discriminate.
    destruct (negb (Json.has_key ToolCallingDemo.TOOLS name));
      [do 2 eexists; reflexivity|].
    apply validate_known_tool_returns.
  - split; [|right; eexists; reflexivity]. split; [|eauto].
    intros _. exists d. split; [reflexivity|]. left. eauto.
  - split; [|right; eexists; reflexivity]. split; [|eauto].
    intros _. exists d. split; [reflexivity|]. right. eauto.
Qed.

Lemma validate_tool_call_raises_iff_witness :
  exists t,
    ToolCallingDemo.validate_tool_call silent_repr None list_tool_call
    = ToolCallingDemo.TypeError t.
Proof.
  apply (proj2 (proj1 (validate_tool_call_raises_iff silent_repr None
                         list_tool_call))).
  eexists. split; [reflexivity|]. left. eexists. reflexivity.
Defined.
